(** * ham-radio-recorder: the recording engine, its command channel and its
    storage helpers, embedded in Rocq.

    Layout, following the TypeScript sources:
    - [JS]          the few JavaScript primitives the code relies on
                    (String.prototype.split / replace / padStart, Number, String);
    - [Types]       lib/types.ts;
    - [Async]       a small free monad for async functions: module variables,
                    awaited calls to the browser, synchronous outputs,
                    exceptions; one run of a handler, and the interleaving
                    of all handlers;
    - [Storage]     lib/storage.ts;
    - [WsClient]    lib/ws-client.ts, as an event-driven state machine;
    - [Engine]      background/index.ts;
    - [Spec], [ChannelSpec]  the vocabulary of the statements;
    - [StorageSpec], [EngineSpec]  further vocabulary;
    - [WsConnect]   connect and attemptConnect of lib/ws-client.ts;
    then the facts, file by file.

    Strings are [string] (one [ascii] per code unit), JS integers are [Z]. *)

From Stdlib Require Import ZArith String Ascii List Lia DecimalString.
From stdpp Require Import base list strings.

Open Scope string_scope.
Set Warnings "-register-all".
Set Default Proof Using "Type".

(* ================================================================== *)
(** * JavaScript primitives *)
(* ================================================================== *)

Module JS.

(** [String(n)] for an integer [n] (plain decimal, with a minus sign). *)
Definition String_of_Z (n : Z) : string :=
  NilZero.string_of_int (Z.to_int n).

(** [s.padStart(len, fill)] for a one-character [fill]. *)
Fixpoint repeat_char (c : ascii) (n : nat) : string :=
  match n with
  | O => ""
  | S n' => String c (repeat_char c n')
  end.

Definition padStart (len : nat) (fill : ascii) (s : string) : string :=
  repeat_char fill (len - String.length s) +:+ s.

(** [s.split(sep)] for a one-character separator: never the empty list. *)
Fixpoint split (sep : ascii) (s : string) : list string :=
  match s with
  | "" => [""]
  | String c s' =>
      if Ascii.eqb c sep then "" :: split sep s'
      else match split sep s' with
           | h :: t => String c h :: t
           | [] => [String c ""]
           end
  end.

(** [Number(s)] on the strings the model covers: the empty string is 0 and
    a run of decimal digits is its value.  [None] is returned for every
    other string: there JavaScript yields NaN or a number written in
    another syntax (sign, fraction, exponent, blanks, hex), which the
    callers modelled here never produce from an "HH:MM" time. *)
Definition digit_of (c : ascii) : option Z :=
  let n := nat_of_ascii c in
  if (48 <=? n)%nat && (n <=? 57)%nat then Some (Z.of_nat (n - 48)) else None.

Fixpoint digits_value (acc : Z) (s : string) : option Z :=
  match s with
  | "" => Some acc
  | String c s' =>
      match digit_of c with
      | Some d => digits_value (10 * acc + d) s'
      | None => None
      end
  end.

Definition Number (s : string) : option Z := digits_value 0 s.

(** [s.indexOf(pat)]: position of the first occurrence, [None] for -1. *)
Fixpoint indexOf (pat s : string) : option nat :=
  if String.prefix pat s then Some O
  else match s with
       | "" => None
       | String _ s' => S <$> indexOf pat s'
       end.

Fixpoint string_take (n : nat) (s : string) : string :=
  match n, s with
  | S n', String c s' => String c (string_take n' s')
  | _, _ => ""
  end.

Fixpoint string_drop (n : nat) (s : string) : string :=
  match n, s with
  | S n', String _ s' => string_drop n' s'
  | _, _ => s
  end.

(** GetSubstitution for a string pattern (no capture groups): in the
    replacement text [$$] is a dollar, [$&] the matched text, [$`] the text
    before the match and [$'] the text after it; a dollar before anything
    else stands for itself. *)
Fixpoint getSubstitution (matched before after template : string) : string :=
  match template with
  | "" => ""
  | String "$" (String c rest as tail) =>
      if Ascii.eqb c "$" then "$" +:+ getSubstitution matched before after rest
      else if Ascii.eqb c "&" then matched +:+ getSubstitution matched before after rest
      else if Ascii.eqb c "`" then before +:+ getSubstitution matched before after rest
      else if Ascii.eqb c "'" then after +:+ getSubstitution matched before after rest
      else String "$" (getSubstitution matched before after tail)
  | String c rest => String c (getSubstitution matched before after rest)
  end.

(** [s.replace(pat, rep)] with a string pattern: only the first occurrence
    of [pat] is replaced. *)
Definition replace (pat rep s : string) : string :=
  match indexOf pat s with
  | None => s
  | Some i =>
      let before := string_take i s in
      let after := string_drop (i + String.length pat) s in
      before +:+ getSubstitution pat before after rep +:+ after
  end.

(** [s.startsWith(p)] *)
Definition startsWith (p s : string) : bool := String.prefix p s.

(** [s.includes(p)] *)
Definition includes (p s : string) : bool :=
  match indexOf p s with Some _ => true | None => false end.

End JS.

(* ================================================================== *)
(** * lib/types.ts *)
(* ================================================================== *)

Module Types.

(** Parsed JSON, as [JSON.parse] returns it; numbers are integers here. *)
Inductive JValue : Type :=
| JNull
| JBool (b : bool)
| JNum (n : Z)
| JStr (s : string)
| JArr (items : list JValue)
| JObj (fields : list (string * JValue)).

(** [v.name]: [None] is [undefined] (absent property, or [v] not an object). *)
Fixpoint assoc (name : string) (fields : list (string * JValue)) : option JValue :=
  match fields with
  | [] => None
  | (k, x) :: rest => if String.eqb k name then Some x else assoc name rest
  end.

Definition field (name : string) (v : JValue) : option JValue :=
  match v with
  | JObj fields => assoc name fields
  | _ => None
  end.

(** ToBoolean *)
Definition truthy (v : JValue) : bool :=
  match v with
  | JNull => false
  | JBool b => b
  | JNum n => negb (n =? 0)%Z
  | JStr s => negb (String.eqb s "")
  | JArr _ | JObj _ => true
  end.

Definition truthy_opt (o : option JValue) : bool :=
  match o with Some v => truthy v | None => false end.

(** [String(v)] *)
Fixpoint toString (v : JValue) : string :=
  match v with
  | JNull => "null"
  | JBool true => "true"
  | JBool false => "false"
  | JNum n => JS.String_of_Z n
  | JStr s => s
  | JArr items =>
      (fix join (l : list JValue) : string :=
         match l with
         | [] => ""
         | x :: r =>
             let here := match x with JNull => "" | _ => toString x end in
             match r with
             | [] => here
             | _ => here +:+ "," +:+ join r
             end
         end) items
  | JObj _ => "[object Object]"
  end.

(** A thrown value: an [Error] with its message, or anything else, kept as
    the text [String(err)] gives for it. *)
Inductive Thrown : Type :=
| ErrorObj (message : string)
| Other (text : string).

(** [err instanceof Error ? err.message : String(err)] *)
Definition message_of (e : Thrown) : string :=
  match e with
  | ErrorObj m => m
  | Other t => t
  end.

(** [String(err)] *)
Definition String_of_thrown (e : Thrown) : string :=
  match e with
  | ErrorObj m => if String.eqb m "" then "Error" else "Error: " +:+ m
  | Other t => t
  end.

Record Settings : Type := {
  wsHost : string;
  wsPort : Z;
  wsPath : string;
  rigPort : Z;
  deviceId : string;
  deviceLabel : string;
  filenameTemplate : string
}.

(** [Partial<Settings>] *)
Record PartialSettings : Type := {
  p_wsHost : option string;
  p_wsPort : option Z;
  p_wsPath : option string;
  p_rigPort : option Z;
  p_deviceId : option string;
  p_deviceLabel : option string;
  p_filenameTemplate : option string
}.

Definition DEFAULT_SETTINGS : Settings := {|
  wsHost := "127.0.0.1";
  wsPort := 17800;
  wsPath := "/ws";
  rigPort := 0;
  deviceId := "";
  deviceLabel := "";
  filenameTemplate := "{date}_{time}_{freq}_{mode}"
|}.

(** [{ ...base, ...over }] *)
Definition spread (base : Settings) (over : PartialSettings) : Settings := {|
  wsHost := default (wsHost base) (p_wsHost over);
  wsPort := default (wsPort base) (p_wsPort over);
  wsPath := default (wsPath base) (p_wsPath over);
  rigPort := default (rigPort base) (p_rigPort over);
  deviceId := default (deviceId base) (p_deviceId over);
  deviceLabel := default (deviceLabel base) (p_deviceLabel over);
  filenameTemplate := default (filenameTemplate base) (p_filenameTemplate over)
|}.

Definition no_settings : PartialSettings :=
  Build_PartialSettings None None None None None None None.

Definition all_settings (s : Settings) : PartialSettings := {|
  p_wsHost := Some (wsHost s);
  p_wsPort := Some (wsPort s);
  p_wsPath := Some (wsPath s);
  p_rigPort := Some (rigPort s);
  p_deviceId := Some (deviceId s);
  p_deviceLabel := Some (deviceLabel s);
  p_filenameTemplate := Some (filenameTemplate s)
|}.

Inductive ScheduleType : Type := once | daily.

Record Schedule : Type := {
  id : string;
  startTime : string;
  endTime : string;
  frequency : Z;
  mode : string;
  dataMode : bool;
  type : ScheduleType;
  enabled : bool
}.

Record RecordingParams : Type := {
  rp_frequency : Z;
  rp_mode : string;
  rp_dataMode : bool;
  rp_durationMin : Z
}.

Inductive LogLevel : Type := INFO | WARN | ERROR.

Definition level_name (l : LogLevel) : string :=
  match l with INFO => "INFO" | WARN => "WARN" | ERROR => "ERROR" end.

Record LogEntry : Type := {
  timestamp : Z;
  level : LogLevel;
  message : string;
  data : option JValue
}.

Inductive RecordingState : Type :=
| idle | connecting | setting_freq | setting_mode | recording | saving | error.

Definition state_name (s : RecordingState) : string :=
  match s with
  | idle => "idle" | connecting => "connecting"
  | setting_freq => "setting_freq" | setting_mode => "setting_mode"
  | recording => "recording" | saving => "saving" | error => "error"
  end.

#[global] Instance RecordingState_eq_dec : EqDecision RecordingState.
Proof. solve_decision. Defined.

(** Commands sent to UDP-Bridge: [SetFreqCommand] and [SetModeCommand]. *)
Inductive WsCommand : Type :=
| SetFreq (port freq : Z)
| SetMode (port : Z) (mode : string) (data : bool).

Definition command_type (c : WsCommand) : string :=
  match c with SetFreq _ _ => "setFreq" | SetMode _ _ _ => "setMode" end.

Definition command_json (c : WsCommand) : JValue :=
  match c with
  | SetFreq port freq =>
      JObj [("type", JStr "setFreq"); ("port", JNum port); ("freq", JNum freq)]
  | SetMode port mode data =>
      JObj [("type", JStr "setMode"); ("port", JNum port);
            ("mode", JStr mode); ("data", JBool data)]
  end.

(** Messages sent from the service worker to the offscreen document. *)
Inductive OffscreenRequest : Type :=
| EnumerateDevices
| StartRecording (deviceId : string) (durationMs : Z) (mimeType : string)
| StopRecording
| GetRecordingStatus.

(** Messages from the offscreen document, by their [action]. *)
Inductive OffscreenResponse : Type :=
| EnumerateDevicesResult
| RecordingResult (success : bool) (blobUrl : option string)
                  (durationMs : option Z) (error : option string)
| RecordingProgress (elapsed total : Z)
| UnknownAction.

(** The local-time fields of a [Date] that [buildFilename] reads. *)
Record Date : Type := {
  getFullYear : Z;
  getMonth : Z;
  getDate : Z;
  getHours : Z;
  getMinutes : Z;
  getSeconds : Z
}.

(** [chrome.alarms.AlarmCreateInfo]; a delay is kept in seconds so that the
    6-second grace of the backup alarm stays an integer. *)
Record AlarmCreateInfo : Type := {
  when : option Z;
  delayInSeconds : option Z;
  periodInMinutes : option Z
}.

End Types.

(* ================================================================== *)
(** * Async functions *)
(* ================================================================== *)

(** An async function of the service worker is a tree of steps: it reads
    and writes the module variables of background/index.ts, produces
    synchronous outputs, asks the clock, and awaits calls whose result (a
    value or a rejection) comes from the browser.  Every [Await] is a point
    where other handlers of the service worker may run. *)
Module Async.
Import Types.

(** The module variables of background/index.ts. *)
Record Vars : Type := {
  currentState : RecordingState;
  currentFreq : option Z;
  currentMode : option string;
  recordingElapsed : option Z;
  recordingTotal : option Z;
  errorMessage : option string;
  (** [progressInterval]: the running ticker, with the [recordStart] its
      callback captured. *)
  progressInterval : option Z
}.

(** Their values when the service worker starts. *)
Definition init_vars : Vars :=
  {| currentState := idle; currentFreq := None; currentMode := None;
     recordingElapsed := None; recordingTotal := None; errorMessage := None;
     progressInterval := None |}.

(** Awaited calls, indexed by the type of the value they resolve with. *)
Inductive Call : Type -> Type :=
| StorageGetSettings : Call (option PartialSettings)
| StorageSetSettings (s : Settings) : Call unit
| StorageGetSchedules : Call (option (list Schedule))
| StorageSetSchedules (l : list Schedule) : Call unit
| StorageGetLogs : Call (option (list LogEntry))
| StorageSetLogs (l : list LogEntry) : Call unit
| AlarmsCreate (name : string) (info : AlarmCreateInfo) : Call unit
| AlarmsClear (name : string) : Call bool
| OffscreenHasDocument : Call bool
| OffscreenCreateDocument : Call unit
| OffscreenCloseDocument : Call unit
| RuntimeSendMessage (m : OffscreenRequest) : Call unit
| DownloadsDownload (url : option string) (filename : string) : Call Z
| Sleep (ms : Z) : Call unit
| ImportModule (path : string) : Call unit
| WsConnect (url : string) (timeoutMs maxRetries retryDelayMs : Z) : Call unit
| WsSendCommand (cmd : WsCommand) (expectedType : string) (timeoutMs : Z) : Call JValue.

(** Synchronous questions to the host, which cannot fail. *)
Inductive Query : Type -> Type :=
| DateNow : Query Z
| NewDate : Query Date.

Inductive ConsoleKind : Type := ConsoleLog | ConsoleWarn | ConsoleError.

(** Synchronous outputs. *)
Inductive Output : Type :=
| Console (kind : ConsoleKind) (text : string)
| WsDisconnect
| SetInterval (recordStart : Z)
| ClearInterval.

Inductive Prog (A : Type) : Type :=
| Ret (a : A)
| Throw (e : Thrown)
| Read (k : Vars -> Prog A)
| Write (f : Vars -> Vars) (k : Prog A)
| Emit (o : Output) (k : Prog A)
| Ask {R : Type} (q : Query R) (k : R -> Prog A)
| Await {R : Type} (c : Call R) (k : Thrown + R -> Prog A).

Arguments Ret {A} a.
Arguments Throw {A} e.
Arguments Read {A} k.
Arguments Write {A} f k.
Arguments Emit {A} o k.
Arguments Ask {A R} q k.
Arguments Await {A R} c k.

Fixpoint bind {A B : Type} (p : Prog A) (f : A -> Prog B) : Prog B :=
  match p with
  | Ret a => f a
  | Throw e => Throw e
  | Read k => Read (fun v => bind (k v) f)
  | Write g k => Write g (bind k f)
  | Emit o k => Emit o (bind k f)
  | Ask q k => Ask q (fun r => bind (k r) f)
  | Await c k => Await c (fun r => bind (k r) f)
  end.

#[global] Instance Prog_ret : MRet Prog := @Ret.
#[global] Instance Prog_bind : MBind Prog := fun A B f p => bind p f.

(** [try { p } catch (err) { h err }] *)
Fixpoint try_catch {A : Type} (p : Prog A) (h : Thrown -> Prog A) : Prog A :=
  match p with
  | Ret a => Ret a
  | Throw e => h e
  | Read k => Read (fun v => try_catch (k v) h)
  | Write g k => Write g (try_catch k h)
  | Emit o k => Emit o (try_catch k h)
  | Ask q k => Ask q (fun r => try_catch (k r) h)
  | Await c k => Await c (fun r => try_catch (k r) h)
  end.

(** [try { p } finally { f }]: [f] runs on both exits, then the exit of [p]
    is resumed. *)
Fixpoint try_finally {A : Type} (p : Prog A) (f : Prog unit) : Prog A :=
  match p with
  | Ret a => bind f (fun _ => Ret a)
  | Throw e => bind f (fun _ => Throw e)
  | Read k => Read (fun v => try_finally (k v) f)
  | Write g k => Write g (try_finally k f)
  | Emit o k => Emit o (try_finally k f)
  | Ask q k => Ask q (fun r => try_finally (k r) f)
  | Await c k => Await c (fun r => try_finally (k r) f)
  end.

(** [await c]: a rejection is thrown at the caller. *)
Definition await {R : Type} (c : Call R) : Prog R :=
  Await c (fun r => match r with inl e => Throw e | inr x => Ret x end).

Definition ask {R : Type} (q : Query R) : Prog R := Ask q Ret.
Definition read : Prog Vars := Read Ret.
Definition write (f : Vars -> Vars) : Prog unit := Write f (Ret tt).
Definition emit (o : Output) : Prog unit := Emit o (Ret tt).
Definition throw {A : Type} (message : string) : Prog A := Throw (ErrorObj message).

(** ** Running one async function *)

(** What a run performed, in order. *)
Inductive Op : Type :=
| OpCall {R : Type} (c : Call R)
| OpOut (o : Output).

(** The world around one run: the result of each awaited call, the answer
    to each question, and what the other handlers of the service worker do
    to the module variables while the run is suspended in an await. *)
Record World (E : Type) : Type := {
  respond : E -> forall R : Type, Call R -> (Thrown + R) * E;
  answer : E -> forall R : Type, Query R -> R * E;
  interfere : E -> Vars -> Vars
}.

Arguments respond {E} w e {R} c.
Arguments answer {E} w e {R} q.
Arguments interfere {E} w e v.

Record Run (E A : Type) : Type := {
  outcome : Thrown + A;
  env : E;
  vars : Vars;
  trace : list Op
}.

Arguments outcome {E A} r.
Arguments env {E A} r.
Arguments vars {E A} r.
Arguments trace {E A} r.

Definition performed {E A : Type} (op : Op) (r : Run E A) : Run E A :=
  {| outcome := outcome r; env := env r; vars := vars r; trace := op :: trace r |}.

Fixpoint exec {E A : Type} (w : World E) (p : Prog A) (e : E) (v : Vars) : Run E A :=
  match p with
  | Ret a => {| outcome := inr a; env := e; vars := v; trace := [] |}
  | Throw x => {| outcome := inl x; env := e; vars := v; trace := [] |}
  | Read k => exec w (k v) e v
  | Write f k => exec w k e (f v)
  | Emit o k => performed (OpOut o) (exec w k e v)
  | Ask q k => let '(r, e') := answer w e q in exec w (k r) e' v
  | Await c k =>
      let '(r, e') := respond w e c in
      performed (OpCall c) (exec w (k r) e' (interfere w e' v))
  end.

(** ** All handlers together *)

(** One step of one handler; an awaited call may resolve or reject with
    anything.  Interleaving at every step is finer than JavaScript's
    run-to-completion, so every state the service worker can be in is
    covered. *)
Inductive step : Vars -> Prog unit -> Vars -> Prog unit -> Prop :=
| step_read v k : step v (Read k) v (k v)
| step_write v f k : step v (Write f k) (f v) k
| step_emit v o k : step v (Emit o k) v k
| step_ask v R (q : Query R) k r : step v (Ask q k) v (k r)
| step_await v R (c : Call R) k r : step v (Await c k) v (k r).

End Async.

(* ================================================================== *)
(** * lib/storage.ts *)
(* ================================================================== *)

Module Storage.
Import Types Async.

Definition getSettings : Prog Settings :=
  stored ← await StorageGetSettings;
  mret (spread DEFAULT_SETTINGS (default no_settings stored)).

Definition saveSettings (partial : PartialSettings) : Prog unit :=
  current ← getSettings;
  await (StorageSetSettings (spread current partial)).

Definition getSchedules : Prog (list Schedule) :=
  stored ← await StorageGetSchedules;
  mret (default [] stored).

Definition saveSchedules (schedules : list Schedule) : Prog unit :=
  await (StorageSetSchedules schedules).

(** [schedules.findIndex((s) => s.id === id)], [None] for -1. *)
Definition findIndex (wanted : string) (schedules : list Schedule) : option nat :=
  fst <$> list_find (fun s => id s = wanted) schedules.

Definition upsertSchedule (schedule : Schedule) : Prog unit :=
  schedules ← getSchedules;
  saveSchedules
    match findIndex (id schedule) schedules with
    | Some idx => <[idx := schedule]> schedules
    | None => schedules ++ [schedule]
    end.

Definition deleteSchedule (wanted : string) : Prog unit :=
  schedules ← getSchedules;
  saveSchedules (filter (fun s => id s ≠ wanted) schedules).

Definition MAX_LOGS : nat := 200.

Definition getLogs : Prog (list LogEntry) :=
  stored ← await StorageGetLogs;
  mret (default [] stored).

(** [logs.unshift(entry)] *)
Definition unshift (entry : LogEntry) (logs : list LogEntry) : list LogEntry :=
  entry :: logs.

(** [if (logs.length > MAX_LOGS) logs.length = MAX_LOGS] *)
Definition cap (logs : list LogEntry) : list LogEntry :=
  if decide (MAX_LOGS < length logs) then take MAX_LOGS logs else logs.

Definition console_of (l : LogLevel) : ConsoleKind :=
  match l with
  | ERROR => ConsoleError
  | WARN => ConsoleWarn
  | INFO => ConsoleLog
  end.

Definition addLog (level : LogLevel) (message : string) (data : option JValue)
  : Prog unit :=
  now ← ask DateNow;
  let entry := {| timestamp := now; level := level; message := message; data := data |} in
  let prefix := "[ham-radio-recorder] [" +:+ level_name level +:+ "]" in
  emit (Console (console_of level) (prefix +:+ " " +:+ message));;
  logs ← getLogs;
  await (StorageSetLogs (cap (unshift entry logs))).

Definition clearLogs : Prog unit := await (StorageSetLogs []).

(** A JS number is [Some] integer or [None] (see [JS.Number]); arithmetic
    on [None] stays [None], and a comparison with it is false. *)
Definition computeDurationMin (startTime endTime : string) : option Z :=
  let parts_s := JS.Number <$> JS.split ":" startTime in
  let parts_e := JS.Number <$> JS.split ":" endTime in
  sh ← mjoin (parts_s !! 0%nat);
  sm ← mjoin (parts_s !! 1%nat);
  eh ← mjoin (parts_e !! 0%nat);
  em ← mjoin (parts_e !! 1%nat);
  let startMin := (sh * 60 + sm)%Z in
  let endMin := (eh * 60 + em)%Z in
  let diff := (endMin - startMin)%Z in
  Some (if (diff <=? 0)%Z then (diff + 24 * 60)%Z else diff).

Definition buildWsUrl (settings : Settings) : string :=
  let path := if JS.startsWith "/" (wsPath settings) then wsPath settings
              else "/" +:+ wsPath settings in
  "ws://" +:+ wsHost settings +:+ ":" +:+ JS.String_of_Z (wsPort settings) +:+ path.

Definition pad (n : Z) : string := JS.padStart 2 "0" (JS.String_of_Z n).

Definition date_text (d : Date) : string :=
  JS.String_of_Z (getFullYear d) +:+ pad (getMonth d + 1) +:+ pad (getDate d).

Definition time_text (d : Date) : string :=
  pad (getHours d) +:+ pad (getMinutes d) +:+ pad (getSeconds d).

(** The body of [buildFilename] once [d = now ?? new Date()] is known. *)
Definition fill_template (template : string) (freq : Z) (mode : string) (d : Date)
  : string :=
  JS.replace "{mode}" mode
    (JS.replace "{freq}" (JS.String_of_Z freq)
       (JS.replace "{time}" (time_text d)
          (JS.replace "{date}" (date_text d) template))).

Definition buildFilename (template : string) (freq : Z) (mode : string)
    (now : option Date) : Prog string :=
  d ← match now with Some d => mret d | None => ask NewDate end;
  mret (fill_template template freq mode d).

(** ** chrome.storage.local as a store *)

(** The three records of the extension and the clock that [Date.now()]
    reads: each reading takes the next instant of [clock]. *)
Record Chrome : Type := {
  settings : option PartialSettings;
  schedules : option (list Schedule);
  logs : option (list LogEntry);
  clock : list Z
}.

Definition tick (b : Chrome) : Chrome :=
  {| settings := settings b; schedules := schedules b; logs := logs b;
     clock := tail (clock b) |}.

Definition unavailable {R : Type} : Thrown + R := inl (Other "not available").

Definition epoch : Date := Build_Date 1970 0 1 0 0 0.

(** Reads return what is stored, writes replace it; this world serves the
    storage calls only. *)
Definition chrome_storage : World Chrome := {|
  respond := fun b R (c : Call R) =>
    match c in Call R return (Thrown + R) * Chrome with
    | StorageGetSettings => (inr (settings b), b)
    | StorageSetSettings s =>
        (inr tt, {| settings := Some (all_settings s); schedules := schedules b;
                    logs := logs b; clock := clock b |})
    | StorageGetSchedules => (inr (schedules b), b)
    | StorageSetSchedules l =>
        (inr tt, {| settings := settings b; schedules := Some l;
                    logs := logs b; clock := clock b |})
    | StorageGetLogs => (inr (logs b), b)
    | StorageSetLogs l =>
        (inr tt, {| settings := settings b; schedules := schedules b;
                    logs := Some l; clock := clock b |})
    | _ => (unavailable, b)
    end;
  answer := fun b R (q : Query R) =>
    match q in Query R return R * Chrome with
    | DateNow => (hd 0%Z (clock b), tick b)
    | NewDate => (epoch, b)
    end;
  interfere := fun _ v => v
|}.

(** The store after an async function ran against it. *)
Definition stored_after {A : Type} (p : Prog A) (b : Chrome) : Chrome :=
  env (exec chrome_storage p b init_vars).

(** One [addLog] call. *)
Record LogCall : Type := {
  lc_level : LogLevel;
  lc_message : string;
  lc_data : option JValue
}.

Definition addLogs (calls : list LogCall) (b : Chrome) : Chrome :=
  foldl (fun b c => stored_after (addLog (lc_level c) (lc_message c) (lc_data c)) b)
        b calls.

End Storage.

(* ================================================================== *)
(** * lib/ws-client.ts *)
(* ================================================================== *)

(** The client as a state machine driven by calls and by host events
    (an inbound frame, a fired timeout, the socket closing).  A frame is
    given by what [JSON.parse] makes of it ([None]: it throws), a sent
    command by the object handed to [JSON.stringify]. *)
Module WsClient.
Import Types.

Inductive ReadyState : Type := CONNECTING | OPEN | CLOSING | CLOSED.

(** A [WebSocket] object: its state and whether each handler slot is set. *)
Record WebSocket : Type := {
  url : string;
  readyState : ReadyState;
  onopen : bool;
  onclose : bool;
  onerror : bool;
  onmessage : bool
}.

(** The listener closure of one [sendCommand] call; [lid] is its identity. *)
Record Listener : Type := {
  lid : nat;
  expectedType : string
}.

(** The fields of the class. *)
Record WsClient : Type := {
  ws : option WebSocket;
  messageListeners : list Listener
}.

(** An armed [setTimeout] of one [sendCommand] call. *)
Record Timer : Type := {
  tid : nat;
  t_expected : string;
  t_ms : Z
}.

Inductive Settled : Type :=
| Resolved (msg : JValue)
| Rejected (e : Thrown).

(** What was asked of sockets. *)
Inductive SocketOp : Type :=
| SockSend (command : JValue)
| SockClose (url : string) (code : Z) (reason : string).

(** The client together with the host state its closures live in. *)
Record Runtime : Type := {
  client : WsClient;
  timers : list Timer;
  settled : list (nat * Settled);
  ops : list SocketOp;
  next : nat
}.

Definition with_client (c : WsClient) (rt : Runtime) : Runtime :=
  {| client := c; timers := timers rt; settled := settled rt;
     ops := ops rt; next := next rt |}.

Definition with_timers (t : list Timer) (rt : Runtime) : Runtime :=
  {| client := client rt; timers := t; settled := settled rt;
     ops := ops rt; next := next rt |}.

Definition with_op (o : SocketOp) (rt : Runtime) : Runtime :=
  {| client := client rt; timers := timers rt; settled := settled rt;
     ops := ops rt ++ [o]; next := next rt |}.

Definition is_open (s : ReadyState) : bool :=
  match s with OPEN => true | _ => false end.

(** [get isConnected] *)
Definition isConnected (c : WsClient) : bool :=
  match ws c with
  | Some sock => is_open (readyState sock)
  | None => false
  end.

Fixpoint settlement (call : nat) (l : list (nat * Settled)) : option Settled :=
  match l with
  | [] => None
  | (i, s) :: rest => if decide (i = call) then Some s else settlement call rest
  end.

(** How the promise of [call] settled, [None] while it is pending. *)
Definition outcome_of (call : nat) (rt : Runtime) : option Settled :=
  settlement call (settled rt).

(** [resolve] / [reject] of the promise of [call]: the first one wins. *)
Definition settle (call : nat) (s : Settled) (rt : Runtime) : Runtime :=
  match outcome_of call rt with
  | Some _ => rt
  | None =>
      {| client := client rt; timers := timers rt;
         settled := (call, s) :: settled rt; ops := ops rt; next := next rt |}
  end.

Definition addMessageListener (l : Listener) (c : WsClient) : WsClient :=
  {| ws := ws c; messageListeners := messageListeners c ++ [l] |}.

(** [indexOf] then [splice(idx, 1)]: the first entry that is this closure. *)
Fixpoint remove_first (call : nat) (ls : list Listener) : list Listener :=
  match ls with
  | [] => []
  | l :: rest => if decide (lid l = call) then rest else l :: remove_first call rest
  end.

Definition removeMessageListener (call : nat) (c : WsClient) : WsClient :=
  {| ws := ws c; messageListeners := remove_first call (messageListeners c) |}.

(** [cleanup] of the call: clear its timeout, remove its listener. *)
Definition cleanup (call : nat) (rt : Runtime) : Runtime :=
  with_client (removeMessageListener call (client rt))
    (with_timers (filter (fun t => tid t ≠ call) (timers rt)) rt).

Definition dquote : string := String (ascii_of_nat 34) "".

Definition timeout_error (expected : string) (ms : Z) : Thrown :=
  ErrorObj ("Timeout waiting for " +:+ dquote +:+ expected +:+ dquote
            +:+ " response (" +:+ JS.String_of_Z ms +:+ "ms)").

(** [msg && msg.type === expectedType] *)
Definition matches (expected : string) (data : JValue) : bool :=
  truthy data &&
  match field "type" data with
  | Some (JStr t) => String.eqb t expected
  | _ => false
  end.

(** The listener closure applied to a parsed frame. *)
Definition listener (l : Listener) (data : JValue) (rt : Runtime) : Runtime :=
  if matches (expectedType l) data
  then settle (lid l) (Resolved data) (cleanup (lid l) rt)
  else rt.

(** [ws.send(text)] throws while the socket is still connecting. *)
Definition socket_send (sock : WebSocket) : option Thrown :=
  match readyState sock with
  | CONNECTING => Some (ErrorObj "Failed to execute 'send' on 'WebSocket': Still in CONNECTING state.")
  | _ => None
  end.

(** [sendCommand(command, expectedType, { timeoutMs })]: the new runtime
    and the identity of the call, under which its promise settles. *)
Definition sendCommand (command : WsCommand) (expected : string) (timeoutMs : Z)
    (rt : Runtime) : Runtime * nat :=
  let call := next rt in
  let rt := {| client := client rt; timers := timers rt; settled := settled rt;
               ops := ops rt; next := S (next rt) |} in
  match ws (client rt) with
  | Some sock =>
      if isConnected (client rt) then
        let rt := with_timers (timers rt ++ [{| tid := call; t_expected := expected;
                                                t_ms := timeoutMs |}]) rt in
        let rt := with_client
                    (addMessageListener {| lid := call; expectedType := expected |}
                       (client rt)) rt in
        match socket_send sock with
        | None => (with_op (SockSend (command_json command)) rt, call)
        | Some err =>
            (settle call
               (Rejected (ErrorObj ("Failed to send command: " +:+ message_of err)))
               (cleanup call rt), call)
        end
      else (settle call (Rejected (ErrorObj "WebSocket is not connected")) rt, call)
  | None => (settle call (Rejected (ErrorObj "WebSocket is not connected")) rt, call)
  end.

(** [disconnect()] *)
Definition disconnect (rt : Runtime) : Runtime :=
  let rt :=
    match ws (client rt) with
    | Some sock =>
        let rt :=
          match readyState sock with
          | OPEN | CONNECTING => with_op (SockClose (url sock) 1000 "Client disconnect") rt
          | _ => rt
          end in
        with_client {| ws := None; messageListeners := messageListeners (client rt) |} rt
    | None => rt
    end in
  with_client {| ws := ws (client rt); messageListeners := [] |} rt.

(** The [onmessage] handler installed by [setupMessageHandler]: every
    listener of a copy of the list is called with the parsed frame; a frame
    that does not parse is only reported. *)
Definition on_message (parsed : option JValue) (rt : Runtime) : Runtime :=
  match ws (client rt) with
  | Some sock =>
      if onmessage sock then
        match parsed with
        | Some data =>
            foldl (fun rt l => listener l data rt) rt (messageListeners (client rt))
        | None => rt
        end
      else rt
  | None => rt
  end.

(** The [onclose] handler installed by [setupMessageHandler]. *)
Definition on_close (rt : Runtime) : Runtime :=
  match ws (client rt) with
  | Some sock =>
      if onclose sock
      then with_client {| ws := None; messageListeners := messageListeners (client rt) |} rt
      else rt
  | None => rt
  end.

(** The [onopen] handler of [attemptConnect] followed by
    [setupMessageHandler]. *)
Definition on_open (address : string) (rt : Runtime) : Runtime :=
  with_client
    {| ws := Some {| url := address; readyState := OPEN; onopen := true;
                     onclose := true; onerror := true; onmessage := true |};
       messageListeners := messageListeners (client rt) |} rt.

(** The timeout callback of [sendCommand]; a timer that is not armed does
    not fire. *)
Definition on_timeout (call : nat) (rt : Runtime) : Runtime :=
  match list_find (fun t => tid t = call) (timers rt) with
  | Some (_, t) =>
      settle call (Rejected (timeout_error (t_expected t) (t_ms t))) (cleanup call rt)
  | None => rt
  end.

Inductive Event : Type :=
| Frame (parsed : option JValue)
| TimerFired (call : nat)
| SocketClosed
| SocketOpened (address : string)
| CallSendCommand (command : WsCommand) (expected : string) (timeoutMs : Z)
| CallDisconnect.

Definition handle (rt : Runtime) (ev : Event) : Runtime :=
  match ev with
  | Frame parsed => on_message parsed rt
  | TimerFired call => on_timeout call rt
  | SocketClosed => on_close rt
  | SocketOpened address => on_open address rt
  | CallSendCommand command expected timeoutMs =>
      fst (sendCommand command expected timeoutMs rt)
  | CallDisconnect => disconnect rt
  end.

Definition run (evs : list Event) (rt : Runtime) : Runtime := foldl handle rt evs.

Definition fresh : Runtime :=
  {| client := {| ws := None; messageListeners := [] |};
     timers := []; settled := []; ops := []; next := 0 |}.

End WsClient.

(* ================================================================== *)
(** * background/index.ts *)
(* ================================================================== *)

Module Engine.
Import Types Async Storage.

Definition ALARM_PREFIX : string := "ham-record-".
Definition STOP_ALARM : string := "ham-stop-recording".

Definition set_currentFreq (x : option Z) (v : Vars) : Vars :=
  {| currentState := currentState v; currentFreq := x; currentMode := currentMode v;
     recordingElapsed := recordingElapsed v; recordingTotal := recordingTotal v;
     errorMessage := errorMessage v; progressInterval := progressInterval v |}.

Definition set_currentMode (x : option string) (v : Vars) : Vars :=
  {| currentState := currentState v; currentFreq := currentFreq v; currentMode := x;
     recordingElapsed := recordingElapsed v; recordingTotal := recordingTotal v;
     errorMessage := errorMessage v; progressInterval := progressInterval v |}.

Definition set_recordingElapsed (x : option Z) (v : Vars) : Vars :=
  {| currentState := currentState v; currentFreq := currentFreq v;
     currentMode := currentMode v;
     recordingElapsed := x; recordingTotal := recordingTotal v;
     errorMessage := errorMessage v; progressInterval := progressInterval v |}.

Definition set_recordingTotal (x : option Z) (v : Vars) : Vars :=
  {| currentState := currentState v; currentFreq := currentFreq v;
     currentMode := currentMode v;
     recordingElapsed := recordingElapsed v; recordingTotal := x;
     errorMessage := errorMessage v; progressInterval := progressInterval v |}.

Definition set_progressInterval (x : option Z) (v : Vars) : Vars :=
  {| currentState := currentState v; currentFreq := currentFreq v;
     currentMode := currentMode v;
     recordingElapsed := recordingElapsed v; recordingTotal := recordingTotal v;
     errorMessage := errorMessage v; progressInterval := x |}.

(** The assignments of [setState(state, error)]. *)
Definition assign_state (state : RecordingState) (err : option string) (v : Vars) : Vars :=
  {| currentState := state;
     currentFreq := currentFreq v;
     currentMode := currentMode v;
     recordingElapsed := if decide (state = idle) then None else recordingElapsed v;
     recordingTotal := if decide (state = idle) then None else recordingTotal v;
     errorMessage := err;
     progressInterval := progressInterval v |}.

Definition setState (state : RecordingState) (err : option string) : Prog unit :=
  write (assign_state state err).

Definition resetState : Prog unit :=
  v ← read;
  if decide (currentState v = error) then
    emit (Console ConsoleLog "[SW] Resetting error state to idle");;
    setState idle None
  else mret tt.

Definition ensureOffscreen : Prog unit :=
  existing ← await OffscreenHasDocument;
  if (existing : bool) then mret tt
  else
    try_catch
      (await OffscreenCreateDocument;;
       emit (Console ConsoleLog "[SW] Offscreen document created"))
      (fun err =>
         let msg := message_of err in
         if JS.includes "already exists" msg then mret tt else Throw err).

Definition closeOffscreen : Prog unit :=
  try_catch
    (exists_ ← await OffscreenHasDocument;
     if (exists_ : bool) then
       await OffscreenCloseDocument;;
       emit (Console ConsoleLog "[SW] Offscreen document closed")
     else mret tt)
    (fun err => emit (Console ConsoleWarn "[SW] Error closing offscreen:")).

Definition sendToOffscreen (message : OffscreenRequest) : Prog unit :=
  await (RuntimeSendMessage message).

Definition clearProgressInterval : Prog unit :=
  v ← read;
  match progressInterval v with
  | Some _ => emit ClearInterval;; write (set_progressInterval None)
  | None => mret tt
  end.

(** [new Error(result.error ?? fallback)]: the message it carries. *)
Definition failure_message (result : JValue) (fallback : string) : string :=
  match field "error" result with
  | None | Some JNull => fallback
  | Some x => toString x
  end.

Definition bool_text (b : bool) : string := if b then "true" else "false".

(** Steps 2 and 3 of the flow return whether the flow goes on. *)
Definition setFrequency (settings : Settings) (params : RecordingParams) : Prog bool :=
  setState setting_freq None;;
  try_catch
    (freqResult ← await (WsSendCommand (SetFreq (rigPort settings) (rp_frequency params))
                           "setFreqResult" 5000);
     (if negb (truthy_opt (field "success" freqResult))
      then throw (failure_message freqResult "setFreq returned success=false")
      else mret tt);;
     write (set_currentFreq (Some (rp_frequency params)));;
     addLog INFO ("Frequency set: " +:+ JS.String_of_Z (rp_frequency params) +:+ " Hz") None;;
     mret true)
    (fun err =>
       let msg := message_of err in
       addLog ERROR ("setFreq failed: " +:+ msg) None;;
       setState error (Some ("setFreq failed: " +:+ msg));;
       emit WsDisconnect;;
       mret false).

Definition setMode (settings : Settings) (params : RecordingParams) : Prog bool :=
  setState setting_mode None;;
  try_catch
    (modeResult ← await (WsSendCommand
                           (SetMode (rigPort settings) (rp_mode params) (rp_dataMode params))
                           "setModeResult" 5000);
     (if negb (truthy_opt (field "success" modeResult))
      then throw (failure_message modeResult "setMode returned success=false")
      else mret tt);;
     write (set_currentMode (Some (rp_mode params)));;
     addLog INFO ("Mode set: " +:+ rp_mode params +:+ " (data="
                  +:+ bool_text (rp_dataMode params) +:+ ")") None;;
     mret true)
    (fun err =>
       let msg := message_of err in
       addLog ERROR ("setMode failed: " +:+ msg) None;;
       setState error (Some ("setMode failed: " +:+ msg));;
       emit WsDisconnect;;
       mret false).

(** Step 4: start recording via the offscreen document. *)
Definition startCapture (settings : Settings) (params : RecordingParams) : Prog unit :=
  setState recording None;;
  let durationMs := (rp_durationMin params * 60 * 1000)%Z in
  write (set_recordingTotal (Some (rp_durationMin params * 60)%Z));;
  write (set_recordingElapsed (Some 0%Z));;
  try_catch
    (ensureOffscreen;;
     (if String.eqb (deviceId settings) ""
      then throw "No audio device selected. Please configure in Options."
      else mret tt);;
     sendToOffscreen (StartRecording (deviceId settings) durationMs "audio/webm;codecs=opus");;
     addLog INFO ("Recording started: " +:+ JS.String_of_Z (rp_durationMin params) +:+ " min")
       (Some (JObj [("deviceId", JStr (deviceId settings))]));;
     (* Math.max(durationMin + 0.1, 1) minutes, in seconds *)
     let stopDelay := Z.max (rp_durationMin params * 60 + 6) 60 in
     await (AlarmsCreate STOP_ALARM
              {| when := None; delayInSeconds := Some stopDelay; periodInMinutes := None |});;
     emit (Console ConsoleLog "[SW] Backup stop alarm set");;
     recordStart ← ask DateNow;
     emit (SetInterval recordStart);;
     write (set_progressInterval (Some recordStart)))
    (fun err =>
       let msg := message_of err in
       addLog ERROR ("Recording start failed: " +:+ msg) None;;
       setState error (Some ("Recording start failed: " +:+ msg));;
       closeOffscreen).

Definition executeRecordingFlow (params : RecordingParams) : Prog unit :=
  v ← read;
  (if decide (currentState v = error) then resetState else mret tt);;
  v ← read;
  if decide (currentState v ≠ idle) then
    addLog WARN "Recording flow skipped: already busy"
      (Some (JObj [("currentState", JStr (state_name (currentState v)))]))
  else
    loaded ← try_catch (s ← getSettings; mret (Some s))
                (fun err =>
                   addLog ERROR "Failed to load settings"
                     (Some (JObj [("error", JStr (String_of_thrown err))]));;
                   setState error (Some "Failed to load settings");;
                   mret None);
    match loaded with
    | None => mret tt
    | Some settings =>
        let wsUrl := buildWsUrl settings in
        addLog INFO ("Starting recording flow: " +:+ wsUrl)
          (Some (JObj [("freq", JNum (rp_frequency params));
                       ("mode", JStr (rp_mode params))]));;
        (* Step 1: connect to UDP-Bridge *)
        setState connecting None;;
        connected ← try_catch
                      (await (WsConnect wsUrl 5000 3 1000);;
                       addLog INFO "WebSocket connected" None;;
                       mret true)
                      (fun err =>
                         let msg := message_of err in
                         addLog ERROR ("WebSocket connection failed: " +:+ msg) None;;
                         setState error (Some ("WS connection failed: " +:+ msg));;
                         mret false);
        if negb connected then mret tt
        else
          tuned ← setFrequency settings params;
          if negb tuned then mret tt
          else
            await (Sleep 200);;
            moded ← setMode settings params;
            if negb moded then mret tt
            else
              emit WsDisconnect;;
              startCapture settings params
    end.

Definition stopRecording : Prog unit :=
  await (AlarmsClear STOP_ALARM);;
  clearProgressInterval;;
  v ← read;
  if decide (currentState v = error) then
    addLog INFO "Force reset from error state" None;;
    emit WsDisconnect;;
    closeOffscreen;;
    setState idle None
  else if decide (currentState v ≠ recording) then
    addLog WARN "stopRecording called but not recording" None
  else
    try_catch
      (sendToOffscreen StopRecording;;
       addLog INFO "Stop signal sent to offscreen" None;;
       await (Sleep 2000))
      (fun err =>
         addLog WARN ("Offscreen unreachable, force-closing: " +:+ String_of_thrown err) None);;
    v ← read;
    if decide (currentState v = recording) then
      addLog INFO "Force-closing offscreen and resetting state" None;;
      closeOffscreen;;
      setState idle None
    else mret tt.

Definition handleRecordingResult (success : bool) (blobUrl : option string)
    (durationMs : option Z) (err : option string) : Prog unit :=
  await (AlarmsClear STOP_ALARM);;
  clearProgressInterval;;
  if negb success then
    let text := "Recording failed: " +:+ default "undefined" err in
    addLog ERROR text None;;
    setState error (Some text);;
    closeOffscreen
  else
    (* Step 5: download the recorded file *)
    setState saving None;;
    saved ← try_finally
              (try_catch
                 (settings ← getSettings;
                  v ← read;
                  filename ← buildFilename (filenameTemplate settings)
                               (default 0%Z (currentFreq v))
                               (default "UNKNOWN" (currentMode v)) None;
                  await (DownloadsDownload blobUrl (filename +:+ ".webm"));;
                  addLog INFO ("Recording saved: " +:+ filename +:+ ".webm")
                    (Some (JObj [("durationMs", from_option JNum JNull durationMs)]));;
                  mret true)
                 (fun e =>
                    let errMsg := message_of e in
                    addLog ERROR ("Download failed: " +:+ errMsg) None;;
                    setState error (Some ("Download failed: " +:+ errMsg));;
                    mret false))
              closeOffscreen;
    if negb saved then mret tt
    else
      setState idle None;;
      addLog INFO "Recording flow complete" None.

Definition handleOffscreenMessage (msg : OffscreenResponse) : Prog unit :=
  match msg with
  | RecordingResult success blobUrl durationMs err =>
      handleRecordingResult success blobUrl durationMs err
  | RecordingProgress elapsed total =>
      write (set_recordingElapsed (Some elapsed));;
      write (set_recordingTotal (Some total))
  | EnumerateDevicesResult => mret tt
  | UnknownAction => emit (Console ConsoleLog "[SW] Unknown offscreen message:")
  end.

(** The callback of the progress ticker set up by [startCapture]. *)
Definition progressTick (recordStart : Z) : Prog unit :=
  now ← ask DateNow;
  write (set_recordingElapsed (Some ((now - recordStart) / 1000)%Z)).

(** The [STOP_ALARM] branch of the [chrome.alarms.onAlarm] listener. *)
Definition onStopAlarm : Prog unit :=
  addLog INFO "Backup stop alarm fired — force-stopping recording" None;;
  clearProgressInterval;;
  v ← read;
  if decide (currentState v = recording) then
    try_catch
      (sendToOffscreen StopRecording;;
       await (Sleep 2000))
      (fun _ => mret tt);;
    v ← read;
    if decide (currentState v = recording) then
      closeOffscreen;;
      setState idle None;;
      addLog INFO "Recording force-stopped by backup alarm" None
    else mret tt
  else mret tt.

Record Alarm : Type := {
  name : string;
  scheduledTime : Z
}.

Definition MAX_DRIFT_MS : Z := 5 * 60 * 1000.

(** The branch of the listener for the alarm of a schedule.  A schedule
    whose times [computeDurationMin] cannot read has a NaN duration, which
    [RecordingParams] here cannot hold: the model starts no flow for it. *)
Definition onScheduleAlarm (alarm : Alarm) : Prog unit :=
  let scheduleId := JS.replace ALARM_PREFIX "" (name alarm) in
  addLog INFO ("Alarm fired: " +:+ scheduleId) None;;
  now ← ask DateNow;
  let drift := Z.abs (now - scheduledTime alarm) in
  if (MAX_DRIFT_MS <? drift)%Z then
    addLog WARN ("Alarm drift too large (" +:+ JS.String_of_Z ((drift + 500) / 1000)
                 +:+ "s), skipping")
      (Some (JObj [("scheduleId", JStr scheduleId)]))
  else
    schedules ← getSchedules;
    match list_find (fun s => id s = scheduleId) schedules with
    | None => addLog WARN ("Schedule not found: " +:+ scheduleId) None
    | Some (_, schedule) =>
        match type schedule with
        | once =>
            await (ImportModule "~lib/storage");;
            saveSchedules (filter (fun s => id s ≠ scheduleId) schedules);;
            await (AlarmsClear (name alarm));;
            addLog INFO ("One-shot schedule removed: " +:+ scheduleId) None
        | daily => mret tt
        end;;
        match computeDurationMin (startTime schedule) (endTime schedule) with
        | Some durationMin =>
            executeRecordingFlow
              {| rp_frequency := frequency schedule; rp_mode := mode schedule;
                 rp_dataMode := dataMode schedule; rp_durationMin := durationMin |}
        | None => mret tt
        end
    end.

Definition onAlarm (alarm : Alarm) : Prog unit :=
  if String.eqb (name alarm) STOP_ALARM then onStopAlarm
  else if negb (JS.startsWith ALARM_PREFIX (name alarm)) then mret tt
  else onScheduleAlarm alarm.

(** The entry points through which the service worker runs code that
    touches the module variables. *)
Inductive handler : Prog unit -> Prop :=
| h_flow params : handler (executeRecordingFlow params)
| h_stop : handler stopRecording
| h_reset : handler resetState
| h_offscreen msg : handler (handleOffscreenMessage msg)
| h_alarm alarm : handler (onAlarm alarm)
| h_tick recordStart : handler (progressTick recordStart).

(** The service worker: the module variables and the handlers in flight.
    It starts with the initial values of the variables and no handler; an
    event starts a handler, and any handler in flight may take a step. *)
Inductive reachable : Vars -> list (Prog unit) -> Prop :=
| reach_init : reachable init_vars []
| reach_start v pool h :
    reachable v pool -> handler h -> reachable v (h :: pool)
| reach_step v pool1 p pool2 v' p' :
    reachable v (pool1 ++ p :: pool2) ->
    step v p v' p' ->
    reachable v' (pool1 ++ p' :: pool2).

End Engine.

(* ================================================================== *)
(** * Vocabulary of the statements *)
(* ================================================================== *)

Module Spec.
Import Types Async Storage Engine.

(** A time of day written "HH:MM". *)
Definition two_digits (n : Z) : string :=
  String (ascii_of_nat (48 + Z.to_nat (n / 10)))
    (String (ascii_of_nat (48 + Z.to_nat (n mod 10))) "").

Definition HHMM (h m : Z) : string := two_digits h +:+ ":" +:+ two_digits m.

Definition time_of_day (h m : Z) : Prop := (0 <= h < 24 /\ 0 <= m < 60)%Z.

Definition minutes (h m : Z) : Z := (h * 60 + m)%Z.

(** The entries a sequence of [addLog] calls builds, the k-th with the
    k-th reading of the clock. *)
Fixpoint entries (calls : list LogCall) (clock : list Z) : list LogEntry :=
  match calls with
  | [] => []
  | c :: rest =>
      {| timestamp := hd 0%Z clock; level := lc_level c;
         message := lc_message c; data := lc_data c |} :: entries rest (tail clock)
  end.




(** [computeDurationMin] reads the two fields of the time h:m back. *)
Definition reads_back (h m : Z) : bool :=
  bool_decide (JS.Number <$> JS.split ":" (HHMM h m) = [Some h; Some m]).

(** The entry one [addLog] call builds. *)
Definition log_entry (c : LogCall) (b : Chrome) : LogEntry :=
  {| timestamp := hd 0%Z (clock b); level := lc_level c;
     message := lc_message c; data := lc_data c |}.


(** Operations of an [addLog] call. *)
Definition log_only (op : Op) : Prop :=
  match op with
  | OpOut (Console _ _) => True
  | OpCall StorageGetLogs => True
  | OpCall (StorageSetLogs _) => True
  | _ => False
  end.

(** The log entry of a flow request that finds the engine busy. *)
Definition busy_log (v : Vars) : Prog unit :=
  addLog WARN "Recording flow skipped: already busy"
    (Some (JObj [("currentState", JStr (state_name (currentState v)))])).


Definition is_setFreq_send (op : Op) : bool :=
  match op with
  | OpCall (WsSendCommand (SetFreq _ _) _ _) => true
  | _ => false
  end.

Definition is_setMode_send (op : Op) : bool :=
  match op with
  | OpCall (WsSendCommand (SetMode _ _ _) _ _) => true
  | _ => false
  end.







(** The error message is set exactly in the error state. *)
Definition error_iff (v : Vars) : Prop :=
  errorMessage v <> None <-> currentState v = error.

(** Every write of a program keeps [error_iff], whatever it reads and
    whatever the awaited calls return. *)
Fixpoint safe {A : Type} (p : Prog A) : Prop :=
  match p with
  | Ret _ | Throw _ => True
  | Read k => forall v, safe (k v)
  | Write f k => (forall v, error_iff v -> error_iff (f v)) /\ safe k
  | Emit _ k => safe k
  | Ask _ k => forall r, safe (k r)
  | Await _ k => forall r, safe (k r)
  end.

(** A bridge that accepts every command, a browser whose calls succeed,
    and the default settings, which name no audio device. *)
Definition accepting_bridge : World unit := {|
  respond := fun e R (c : Call R) =>
    match c in Call R return (Thrown + R) * unit with
    | StorageGetSettings => (inr None, e)
    | StorageSetSettings _ => (inr tt, e)
    | StorageGetSchedules => (inr None, e)
    | StorageSetSchedules _ => (inr tt, e)
    | StorageGetLogs => (inr None, e)
    | StorageSetLogs _ => (inr tt, e)
    | AlarmsCreate _ _ => (inr tt, e)
    | AlarmsClear _ => (inr true, e)
    | OffscreenHasDocument => (inr true, e)
    | OffscreenCreateDocument => (inr tt, e)
    | OffscreenCloseDocument => (inr tt, e)
    | RuntimeSendMessage _ => (inr tt, e)
    | DownloadsDownload _ _ => (inr 1%Z, e)
    | Sleep _ => (inr tt, e)
    | ImportModule _ => (inr tt, e)
    | WsConnect _ _ _ _ => (inr tt, e)
    | WsSendCommand _ expected _ =>
        (inr (JObj [("type", JStr expected); ("success", JBool true)]), e)
    end;
  answer := fun e R (q : Query R) =>
    match q in Query R return R * unit with
    | DateNow => (0%Z, e)
    | NewDate => (epoch, e)
    end;
  interfere := fun _ v => v
|}.


Definition one_minute_FM : RecordingParams :=
  {| rp_frequency := 145500000; rp_mode := "FM"; rp_dataMode := false;
     rp_durationMin := 1 |}.

Definition recording_vars : Vars :=
  {| currentState := recording; currentFreq := Some 145500000%Z;
     currentMode := Some "FM"; recordingElapsed := Some 12%Z;
     recordingTotal := Some 60%Z; errorMessage := None;
     progressInterval := Some 0%Z |}.

End Spec.

(* ================================================================== *)
(** * Vocabulary of the statements about the command channel *)
(* ================================================================== *)

Module ChannelSpec.
Import Types WsClient.

(** The listeners and the armed timeouts that belong to one [sendCommand]
    call of the command channel. *)
Definition mine (call : nat) (rt : Runtime) : list Listener :=
  filter (fun l => lid l = call)
    (messageListeners (client rt)).

Definition armed (call : nat) (rt : Runtime) : list Timer :=
  filter (fun t => tid t = call) (timers rt).

(** Identities from [next] on are unused: no listener, timer or promise
    carries one.  Every runtime the client can be in is like this. *)
Definition well_formed (rt : Runtime) : Prop :=
  forall call : nat, next rt <= call ->
    mine call rt = [] /\ armed call rt = [] /\ outcome_of call rt = None.

(** The channel is open and dispatches inbound frames. *)
Definition listening (rt : Runtime) : Prop :=
  exists sock : WebSocket,
    ws (client rt) = Some sock /\
    readyState sock = OPEN /\
    onmessage sock = true.

(** Events during which no frame with the expected type tag arrives and
    the timeout of the call does not fire. *)
Definition quiet (call : nat) (expected : string) (ev : Event) : Prop :=
  match ev with
  | Frame (Some data) => matches expected data = false
  | TimerFired j => j <> call
  | _ => True
  end.

(** Quiet events that also leave the connection alone. *)
Definition calm (call : nat) (expected : string) (ev : Event) : Prop :=
  match ev with
  | Frame (Some data) => matches expected data = false
  | Frame None => True
  | TimerFired j => j <> call
  | CallSendCommand _ _ _ => True
  | _ => False
  end.


(** The promise, the registered listeners and the armed timeouts of one
    call. *)
Definition view (c : nat) (rt : Runtime) : option Settled * list Listener * list Timer :=
  (outcome_of c rt, mine c rt, armed c rt).

(** [cleanup] then [resolve]/[reject], seen by the call itself. *)
Definition hit (s : Settled) (vw : option Settled * list Listener * list Timer)
  : option Settled * list Listener * list Timer :=
  let '(o, m, _) := vw in
  (match o with Some x => Some x | None => Some s end, tail m, []).

(** After it settled: nothing of the call is left in the client. *)
Definition finished (c : nat) (s : Settled) (rt : Runtime) : Prop :=
  view c rt = (Some s, [], []) /\ c < next rt.

(** In flight: pending, its timeout armed, its listener registered once
    (or dropped by a disconnect). *)
Definition in_flight (c : nat) (expected : string) (ms : Z) (rt : Runtime) : Prop :=
  outcome_of c rt = None /\
  armed c rt = [{| tid := c; t_expected := expected; t_ms := ms |}] /\
  (mine c rt = [] \/ mine c rt = [{| lid := c; expectedType := expected |}]) /\
  c < next rt.

(** A call in flight whose listener is registered on a listening channel. *)
Definition attached (c : nat) (expected : string) (ms : Z) (rt : Runtime) : Prop :=
  in_flight c expected ms rt /\
  mine c rt = [{| lid := c; expectedType := expected |}] /\
  listening rt.

(** A freshly connected client. *)
Definition demo_channel : Runtime := on_open "ws://127.0.0.1:17800/ws" fresh.

End ChannelSpec.

(* ================================================================== *)
(** * Vocabulary of the further statements about lib/storage.ts *)
(* ================================================================== *)

Module StorageSpec.
Import Types Async Storage Spec.

(** What [getSettings] returns on a store. *)
Definition settings_of (b : Chrome) : Settings :=
  spread DEFAULT_SETTINGS (default no_settings (settings b)).

(** [{ ...first, ...second }] on partial settings. *)
Definition overlay (first second : PartialSettings) : PartialSettings := {|
  p_wsHost := match p_wsHost second with Some x => Some x | None => p_wsHost first end;
  p_wsPort := match p_wsPort second with Some x => Some x | None => p_wsPort first end;
  p_wsPath := match p_wsPath second with Some x => Some x | None => p_wsPath first end;
  p_rigPort := match p_rigPort second with Some x => Some x | None => p_rigPort first end;
  p_deviceId := match p_deviceId second with Some x => Some x | None => p_deviceId first end;
  p_deviceLabel :=
    match p_deviceLabel second with Some x => Some x | None => p_deviceLabel first end;
  p_filenameTemplate :=
    match p_filenameTemplate second with
    | Some x => Some x
    | None => p_filenameTemplate first
    end
|}.

(** The schedules a store holds, as [getSchedules] returns them. *)
Definition schedules_of (b : Chrome) : list Schedule := default [] (schedules b).

(** The log a store holds, as [getLogs] returns it. *)
Definition logs_of (b : Chrome) : list LogEntry := default [] (logs b).

(** Timestamps do not increase along the list. *)
Fixpoint newest_first (l : list LogEntry) : Prop :=
  match l with
  | a :: rest =>
      match rest with
      | b :: _ => (timestamp b <= timestamp a)%Z /\ newest_first rest
      | [] => True
      end
  | [] => True
  end.

(** Clock readings do not decrease. *)
Fixpoint ascending (clock : list Z) : Prop :=
  match clock with
  | a :: rest =>
      match rest with
      | b :: _ => (a <= b)%Z /\ ascending rest
      | [] => True
      end
  | [] => True
  end.

(** The character [c] does not occur in [s]. *)
Fixpoint lacks (c : ascii) (s : string) : Prop :=
  match s with
  | "" => True
  | String d s' => d <> c /\ lacks c s'
  end.

Definition with_wsPath (path : string) (s : Settings) : Settings :=
  {| wsHost := wsHost s; wsPort := wsPort s; wsPath := path; rigPort := rigPort s;
     deviceId := deviceId s; deviceLabel := deviceLabel s;
     filenameTemplate := filenameTemplate s |}.

End StorageSpec.

(* ================================================================== *)
(** * lib/ws-client.ts: connect *)
(* ================================================================== *)

(** [connect] and [attemptConnect].  One attempt is driven by the events of
    its socket and by its timeout; [connect] awaits the attempts one after
    the other, so it is given, for each attempt, what the host does during
    it. *)
Module WsConnect.
Import Types WsClient.

(** What the host delivers during one [attemptConnect]. *)
Inductive AttemptEvent : Type :=
| EvOpen
| EvError (event_json : string)
| EvClose (code : Z)
| EvTimeout.

(** One attempt: [new WebSocket(url)] throws, or the socket is created and
    the events follow. *)
Inductive AttemptScript : Type :=
| ConstructorThrows (e : Thrown)
| Events (evs : list AttemptEvent).

(** What [connect] does besides changing the client. *)
Inductive ConnectOp : Type :=
| NewSocket (url : string)
| CloseSocket (url : string)
| Delay (ms : Z)
| Log (text : string)
| Warn (text : string).

(** The state of one [attemptConnect] call: its timeout, its promise, and
    whether [setupMessageHandler] has replaced the handlers of the socket. *)
Record Attempt : Type := {
  at_rt : Runtime;
  at_timer : bool;
  at_promise : option (Thrown + unit);
  at_opened : bool;
  at_ops : list ConnectOp
}.

Definition at_settle (r : Thrown + unit) (a : Attempt) : Attempt :=
  {| at_rt := at_rt a; at_timer := at_timer a;
     at_promise := match at_promise a with Some x => Some x | None => Some r end;
     at_opened := at_opened a; at_ops := at_ops a |}.

Definition at_clear_timer (a : Attempt) : Attempt :=
  {| at_rt := at_rt a; at_timer := false; at_promise := at_promise a;
     at_opened := at_opened a; at_ops := at_ops a |}.

Definition attempt_event (url : string) (timeoutMs : Z) (a : Attempt) (ev : AttemptEvent)
  : Attempt :=
  match ev with
  | EvTimeout =>
      if at_timer a then
        at_settle
          (inl (ErrorObj ("Connection timeout (" +:+ JS.String_of_Z timeoutMs +:+ "ms)")))
          {| at_rt := at_rt a; at_timer := false; at_promise := at_promise a;
             at_opened := at_opened a; at_ops := at_ops a ++ [CloseSocket url] |}
      else a
  | EvOpen =>
      at_settle (inr tt)
        {| at_rt := on_open url (at_rt a); at_timer := false;
           at_promise := at_promise a; at_opened := true; at_ops := at_ops a |}
  | EvError event_json =>
      if at_opened a then a
      else at_settle (inl (ErrorObj ("WebSocket error: " +:+ event_json)))
             (at_clear_timer a)
  | EvClose code =>
      if at_opened a then
        {| at_rt := on_close (at_rt a); at_timer := at_timer a;
           at_promise := at_promise a; at_opened := true; at_ops := at_ops a |}
      else
        let a := at_clear_timer a in
        match ws (client (at_rt a)) with
        | None =>
            at_settle
              (inl (ErrorObj ("WebSocket closed before open: code="
                              +:+ JS.String_of_Z code))) a
        | Some _ => a
        end
  end.

(** The events of one attempt are delivered until its promise settles,
    which is when the awaiting [connect] goes on. *)
Fixpoint deliver (url : string) (timeoutMs : Z) (a : Attempt) (evs : list AttemptEvent)
  : Attempt :=
  match at_promise a with
  | Some _ => a
  | None =>
      match evs with
      | [] => a
      | ev :: evs => deliver url timeoutMs (attempt_event url timeoutMs a ev) evs
      end
  end.

(** [attemptConnect(url, timeoutMs)] with what the host does during it. *)
Definition attemptConnect (url : string) (timeoutMs : Z) (script : AttemptScript)
    (rt : Runtime) : Attempt :=
  match script with
  | ConstructorThrows e =>
      {| at_rt := rt; at_timer := false; at_promise := Some (inl e);
         at_opened := false; at_ops := [] |}
  | Events evs =>
      deliver url timeoutMs
        {| at_rt := rt; at_timer := true; at_promise := None;
           at_opened := false; at_ops := [NewSocket url] |}
        evs
  end.

(** How a [connect] call ends; [Hangs] when an attempt never settles. *)
Inductive ConnectResult : Type :=
| Connected
| Failed (e : Thrown)
| Hangs.

Record Connecting : Type := {
  co_rt : Runtime;
  co_result : ConnectResult;
  co_ops : list ConnectOp
}.

Definition failure_text (maxRetries : Z) (lastError : option string) : string :=
  "WebSocket connection failed after " +:+ JS.String_of_Z maxRetries +:+ " attempts: "
  +:+ default "undefined" lastError.

(** The [for] loop of [connect], from [attempt] on; [fuel] bounds the
    number of rounds and is never the reason to stop when it is at least
    [maxRetries]. *)
Fixpoint attempts (fuel : nat) (url : string) (timeoutMs maxRetries retryDelayMs : Z)
    (attempt : Z) (lastError : option string) (scripts : list AttemptScript)
    (rt : Runtime) (done : list ConnectOp) : Connecting :=
  if (attempt <=? maxRetries)%Z then
    match fuel with
    | O => {| co_rt := rt; co_result := Hangs; co_ops := done |}
    | S fuel' =>
        let a := attemptConnect url timeoutMs (hd (Events []) scripts) rt in
        let done := (done ++ at_ops a)%list in
        match at_promise a with
        | None => {| co_rt := at_rt a; co_result := Hangs; co_ops := done |}
        | Some (inr _) =>
            {| co_rt := at_rt a; co_result := Connected;
               co_ops := (done ++ [Log "[WsClient] Connected"])%list |}
        | Some (inl err) =>
            let lastError := Some (message_of err) in
            let done := (done ++ [Warn (message_of err)])%list in
            let done := if (attempt <? maxRetries)%Z
                        then (done ++ [Delay retryDelayMs])%list else done in
            attempts fuel' url timeoutMs maxRetries retryDelayMs (attempt + 1)
              lastError (tail scripts) (at_rt a) done
        end
    end
  else
    {| co_rt := rt;
       co_result := Failed (ErrorObj (failure_text maxRetries lastError));
       co_ops := done |}.

(** [connect(url, { timeoutMs, maxRetries, retryDelayMs })] *)
Definition connect (url : string) (timeoutMs maxRetries retryDelayMs : Z)
    (scripts : list AttemptScript) (rt : Runtime) : Connecting :=
  attempts (Z.to_nat maxRetries) url timeoutMs maxRetries retryDelayMs 1 None scripts
    (disconnect rt) [].

(** The sockets a call opened, and the delays it waited. *)
Definition is_new_socket (op : ConnectOp) : bool :=
  match op with NewSocket _ => true | _ => false end.

Definition is_delay (op : ConnectOp) : bool :=
  match op with Delay _ => true | _ => false end.

Definition sockets_opened (c : Connecting) : nat :=
  length (filter (fun op => is_new_socket op = true) (co_ops c)).

Definition delays_waited (c : Connecting) : list ConnectOp :=
  filter (fun op => is_delay op = true) (co_ops c).

(** The error the first event of an attempt rejects it with. *)
Definition rejection (timeoutMs : Z) (script : AttemptScript) : option Thrown :=
  match script with
  | ConstructorThrows e => Some e
  | Events (EvError event_json :: _) =>
      Some (ErrorObj ("WebSocket error: " +:+ event_json))
  | Events (EvClose code :: _) =>
      Some (ErrorObj ("WebSocket closed before open: code=" +:+ JS.String_of_Z code))
  | Events (EvTimeout :: _) =>
      Some (ErrorObj ("Connection timeout (" +:+ JS.String_of_Z timeoutMs +:+ "ms)"))
  | Events (EvOpen :: _) => None
  | Events [] => None
  end.

Definition fails (script : AttemptScript) : bool :=
  match script with
  | ConstructorThrows _ => true
  | Events (EvOpen :: _) => false
  | Events (_ :: _) => true
  | Events [] => false
  end.

Definition opens (script : AttemptScript) : bool :=
  match script with
  | Events (EvOpen :: _) => true
  | _ => false
  end.

Definition eventful (script : AttemptScript) : bool :=
  match script with
  | Events [] => false
  | _ => true
  end.

End WsConnect.

(* ================================================================== *)
(** * Vocabulary of the statements about the recording engine *)
(* ================================================================== *)

Module EngineSpec.
Import Types Async Storage Engine Spec.

Definition is_start_capture (op : Op) : bool :=
  match op with
  | OpCall (RuntimeSendMessage (StartRecording _ _ _)) => true
  | _ => false
  end.

Definition is_ws_disconnect (op : Op) : bool :=
  match op with
  | OpOut WsDisconnect => true
  | _ => false
  end.

Definition is_ws_send (op : Op) : bool :=
  match op with
  | OpCall (WsSendCommand _ _ _) => true
  | _ => false
  end.

Definition is_ws_connect (op : Op) : bool :=
  match op with
  | OpCall (WsConnect _ _ _ _) => true
  | _ => false
  end.

Definition is_offscreen (op : Op) : bool :=
  match op with
  | OpCall OffscreenHasDocument
  | OpCall OffscreenCreateDocument
  | OpCall OffscreenCloseDocument
  | OpCall (RuntimeSendMessage _) => true
  | _ => false
  end.


(** Every operation of kind [q] in the trace comes after one of kind [p]. *)
Fixpoint preceded_by (p q : Op -> bool) (t : list Op) : bool :=
  match t with
  | [] => true
  | op :: t' => if p op then true else negb (q op) && preceded_by p q t'
  end.



Definition error_vars : Vars :=
  {| currentState := error; currentFreq := Some 145500000%Z;
     currentMode := None; recordingElapsed := None;
     recordingTotal := None; errorMessage := Some "setMode failed: rig busy";
     progressInterval := None |}.

End EngineSpec.

(* ================================================================== *)
(** * Facts about lib/storage.ts *)
(* ================================================================== *)

Section StorageFacts.
Import Types Async Storage Spec.

(** ** computeDurationMin *)

Lemma reads_back_all :
  forallb (fun h => forallb (reads_back h) (seqZ 0 60)) (seqZ 0 24) = true.
Proof. vm_compute. reflexivity. Qed.

Lemma split_HHMM h m :
  time_of_day h m ->
  JS.Number <$> JS.split ":" (HHMM h m) = [Some h; Some m].
Proof.
  intros [Hh Hm].
  pose proof reads_back_all as H.
  rewrite forallb_forall in H.
  assert (Hin : In h (seqZ 0 24)).
  { apply list_elem_of_In, elem_of_seqZ. lia. }
  specialize (H h Hin). rewrite forallb_forall in H.
  assert (Hin' : In m (seqZ 0 60)).
  { apply list_elem_of_In, elem_of_seqZ. lia. }
  specialize (H m Hin').
  unfold reads_back in H. by apply bool_decide_eq_true in H.
Qed.

Lemma computeDurationMin_HHMM h1 m1 h2 m2 :
  time_of_day h1 m1 -> time_of_day h2 m2 ->
  computeDurationMin (HHMM h1 m1) (HHMM h2 m2) =
  Some (let diff := (minutes h2 m2 - minutes h1 m1)%Z in
        if (diff <=? 0)%Z then (diff + 24 * 60)%Z else diff).
Proof.
  intros H1 H2. unfold computeDurationMin.
  rewrite (split_HHMM h1 m1 H1), (split_HHMM h2 m2 H2). reflexivity.
Qed.

(** C1, as written, fails: at equal start and end the code returns a whole
    day, while (end - start) mod 1440 is 0. *)
Lemma computeDurationMin_same_time_is_not_mod :
  ~ (forall h1 m1 h2 m2 : Z,
       time_of_day h1 m1 -> time_of_day h2 m2 ->
       exists d : Z,
         computeDurationMin (HHMM h1 m1) (HHMM h2 m2) = Some d /\
         (0 < d)%Z /\
         d = ((minutes h2 m2 - minutes h1 m1) mod 1440)%Z).
Proof.
  intros H.
  destruct (H 12 0 12 0)%Z as (d & Hd & Hpos & Hmod);
    [unfold time_of_day; lia | unfold time_of_day; lia |].
  vm_compute in Hd. injection Hd as <-. vm_compute in Hmod. discriminate.
Qed.

(** C1 (amended): for two times of day in "HH:MM" format the duration is
    strictly positive, at most 1440, and equals (end - start) mod 1440 when
    the two times differ; equal times give 1440, a whole day. *)
Theorem computeDurationMin_positive_mod (h1 m1 h2 m2 : Z) :
  time_of_day h1 m1 -> time_of_day h2 m2 ->
  exists d : Z,
    computeDurationMin (HHMM h1 m1) (HHMM h2 m2) = Some d /\
    (0 < d <= 1440)%Z /\
    (minutes h1 m1 <> minutes h2 m2 ->
     d = ((minutes h2 m2 - minutes h1 m1) mod 1440)%Z) /\
    (minutes h1 m1 = minutes h2 m2 -> d = 1440%Z).
Proof.
  intros H1 H2. rewrite (computeDurationMin_HHMM _ _ _ _ H1 H2).
  eexists; split; [reflexivity|].
  unfold time_of_day, minutes in *. cbv zeta.
  destruct (Z.leb_spec (h2 * 60 + m2 - (h1 * 60 + m1)) 0) as [Hle | Hgt].
  - repeat split; try lia.
    intros Hne.
    apply (Z.mod_unique _ _ (-1)); lia.
  - repeat split; try lia.
    intros _. symmetry. apply Z.mod_small. lia.
Qed.

Lemma computeDurationMin_positive_mod_witness :
  exists d : Z,
    computeDurationMin (HHMM 23 30) (HHMM 0 15) = Some d /\
    (0 < d <= 1440)%Z /\
    (minutes 23 30 <> minutes 0 15 -> d = ((minutes 0 15 - minutes 23 30) mod 1440)%Z) /\
    (minutes 23 30 = minutes 0 15 -> d = 1440%Z).
Proof.
  apply (computeDurationMin_positive_mod 23 30 0 15); unfold time_of_day; lia.
Defined.

(** ** addLog *)

Lemma addLog_stored (c : LogCall) (b : Chrome) :
  stored_after (addLog (lc_level c) (lc_message c) (lc_data c)) b =
  {| settings := settings b; schedules := schedules b;
     logs := Some (take MAX_LOGS (log_entry c b :: default [] (logs b)));
     clock := tail (clock b) |}.
Proof.
  unfold stored_after, addLog. cbn -[cap]. do 2 f_equal.
  unfold cap, unshift, log_entry. case_decide as Hlen; [reflexivity|].
  rewrite take_ge; [reflexivity | unfold MAX_LOGS in Hlen; cbn [length] in Hlen; lia].
Qed.

Lemma take_app_take {A : Type} (n : nat) (l1 l2 : list A) :
  take n (l1 ++ take n l2) = take n (l1 ++ l2).
Proof.
  rewrite !take_app, take_take. do 2 f_equal. lia.
Qed.

Lemma addLogs_stored (calls : list LogCall) (c : LogCall) (b : Chrome) :
  logs (addLogs (c :: calls) b) =
  Some (take MAX_LOGS (rev (entries (c :: calls) (clock b)) ++ default [] (logs b))).
Proof.
  revert c b. induction calls as [|c' calls IH]; intros c b.
  - unfold addLogs. cbn [foldl]. rewrite addLog_stored. reflexivity.
  - change (addLogs (c :: c' :: calls) b)
      with (addLogs (c' :: calls)
              (stored_after (addLog (lc_level c) (lc_message c) (lc_data c)) b)).
    rewrite IH, addLog_stored. cbn [logs clock default from_option Datatypes.id].
    rewrite take_app_take. f_equal. f_equal.
    cbn [entries rev]. rewrite <- !app_assoc. reflexivity.
Qed.

(** C8: after any sequence of at least one addLog call, from any stored
    list, the stored list is the new entries, newest first, followed by the
    old list, cut to its first 200 entries; so it has at most 200 entries,
    and one call prepends its entry and truncates to 200. *)
Theorem addLog_bounded_newest_first (b : Chrome) (c : LogCall) (calls : list LogCall) :
  exists stored : list LogEntry,
    logs (addLogs (c :: calls) b) = Some stored /\
    stored = take 200 (rev (entries (c :: calls) (clock b)) ++ default [] (logs b)) /\
    length stored <= 200 /\
    logs (addLogs [c] b) = Some (take 200 (log_entry c b :: default [] (logs b))).
Proof.
  eexists. split; [apply addLogs_stored|]. split; [reflexivity|]. split.
  - rewrite length_take. unfold MAX_LOGS. lia.
  - rewrite addLogs_stored. reflexivity.
Qed.

(** ** upsertSchedule *)

Lemma upsertSchedule_stored (s : Schedule) (b : Chrome) :
  stored_after (upsertSchedule s) b =
  let old : list Schedule := default [] (schedules b) in
  {| settings := settings b;
     schedules :=
       Some match findIndex (id s) old with
            | Some idx => <[idx := s]> old
            | None => (old ++ [s])%list
            end;
     logs := logs b; clock := clock b |}.
Proof. reflexivity. Qed.

(** C10: upsertSchedule replaces the (first) entry with the same id in
    place, keeping the length, the positions and all other entries, or,
    when no entry has that id, appends the schedule at the end, the length
    growing by one; settings and logs are not touched. *)
Theorem upsertSchedule_replaces_or_appends (s : Schedule) (b : Chrome) :
  let old : list Schedule := default [] (schedules b) in
  exists new : list Schedule,
    schedules (stored_after (upsertSchedule s) b) = Some new /\
    settings (stored_after (upsertSchedule s) b) = settings b /\
    logs (stored_after (upsertSchedule s) b) = logs b /\
    ((exists (i : nat) (x : Schedule),
        old !! i = Some x /\ id x = id s /\
        (forall (j : nat) (y : Schedule), old !! j = Some y -> j < i -> id y <> id s) /\
        new = <[i := s]> old /\
        length new = length old /\
        new !! i = Some s /\
        (forall j : nat, j <> i -> new !! j = old !! j))
     \/
     ((forall y : Schedule, y ∈ old -> id y <> id s) /\
      new = (old ++ [s])%list /\
      length new = S (length old) /\
      (forall j : nat, j < length old -> new !! j = old !! j))).
Proof.
  intros old. rewrite upsertSchedule_stored. cbn [schedules settings logs].
  fold old. cbv zeta. fold old. eexists. split; [reflexivity|]. split; [reflexivity|]. split; [reflexivity|].
  unfold findIndex.
  destruct (list_find (fun x => id x = id s) old) as [[i x]|] eqn:Hfind; cbn.
  - left. apply list_find_Some in Hfind as (Hi & Hid & Hbefore).
    exists i, x. repeat split; try done.
    + apply length_insert.
    + apply list_lookup_insert_eq. by eapply lookup_lt_Some.
    + intros j Hj. by apply list_lookup_insert_ne.
  - right. apply list_find_None in Hfind.
    rewrite Forall_forall in Hfind. repeat split.
    + intros y Hy. by apply Hfind.
    + rewrite length_app. cbn. lia.
    + intros j Hj. by apply lookup_app_l.
Qed.

End StorageFacts.

(* ================================================================== *)
(** * Facts about buildFilename *)
(* ================================================================== *)

Section FilenameFacts.
Import Types Async Storage Spec.

Lemma append_cons (c : ascii) (a b : string) :
  String c a +:+ b = String c (a +:+ b).
Proof. reflexivity. Qed.

Lemma append_assoc (a b c : string) : (a +:+ b) +:+ c = a +:+ (b +:+ c).
Proof.
  induction a as [|x a IH]; [reflexivity|].
  rewrite !append_cons. f_equal. exact IH.
Qed.







Lemma append_nil_l (s : string) : "" +:+ s = s.
Proof. reflexivity. Qed.

Lemma prefix_cons (a b : ascii) (p s : string) :
  String.prefix (String a p) (String b s) =
  if ascii_dec a b then String.prefix p s else false.
Proof. reflexivity. Qed.








Example replace_dollar_patterns :
  JS.replace "{mode}" "a$$b$&c$1$" "x{mode}y" = "xa$b{mode}c$1$y" /\
  JS.replace "{mode}" "$'|$`" "L{mode}R" = "LR|LR" /\
  JS.replace "{mode}" "FM" "no placeholder" = "no placeholder".
Proof. repeat split; reflexivity. Qed.

Example buildFilename_repeated_date :
  fill_template "{date}_{date}-{mode}{mode}" 145500000 "FM" (Build_Date 2026 1 21 7 0 0)
  = "20260221_{date}-FM{mode}".
Proof. reflexivity. Qed.

Example buildFilename_default_template :
  fill_template "{date}_{time}_{freq}_{mode}" 145500000 "FM" (Build_Date 2026 1 21 7 0 0)
  = "20260221_070000_145500000_FM".
Proof. reflexivity. Qed.

End FilenameFacts.

(* ================================================================== *)
(** * Facts about lib/ws-client.ts *)
(* ================================================================== *)

Section ChannelFacts.
Import Types WsClient ChannelSpec.

(** C7: disconnect() is idempotent, and after it the socket reference is
    cleared and no listener is registered, whatever the client was before
    (open, connecting, or already disconnected); a socket that was open or
    connecting has been closed with code 1000. *)
Theorem disconnect_idempotent (rt : Runtime) :
  disconnect (disconnect rt) = disconnect rt /\
  ws (client (disconnect rt)) = None /\
  messageListeners (client (disconnect rt)) = [] /\
  ops (disconnect rt) =
    (ops rt ++
     match ws (client rt) with
     | Some sock =>
         match readyState sock with
         | OPEN | CONNECTING => [SockClose (url sock) 1000 "Client disconnect"]
         | CLOSING | CLOSED => []
         end
     | None => []
     end)%list /\
  timers (disconnect rt) = timers rt /\
  settled (disconnect rt) = settled rt.
Proof.
  destruct rt as [[[sock|] ls] ts st os n]; cbn.
  - destruct sock as [u [] oo oc oe om]; cbn; rewrite ?app_nil_r; done.
  - rewrite app_nil_r. done.
Qed.

(** ** What one call sees of the runtime *)

Lemma view_settle (c j : nat) (s : Settled) (rt : Runtime) :
  view c (settle j s rt) =
  if decide (j = c)
  then (match outcome_of c rt with Some x => Some x | None => Some s end,
        mine c rt, armed c rt)
  else view c rt.
Proof.
  unfold view, settle, mine, armed, outcome_of.
  case_decide as Hj.
  - subst j. destruct (settlement c (settled rt)) eqn:Hs; cbn; rewrite ?Hs; [done|].
    case_decide; done.
  - destruct (settlement j (settled rt)); cbn; [done|].
    case_decide; done.
Qed.

Lemma filter_remove_first (c j : nat) (ls : list Listener) :
  filter (fun l => lid l = c) (remove_first j ls) =
  if decide (j = c) then tail (filter (fun l => lid l = c) ls)
  else filter (fun l => lid l = c) ls.
Proof.
  induction ls as [|l ls IH]; [by case_decide|].
  change (remove_first j (l :: ls))
    with (if decide (lid l = j) then ls else l :: remove_first j ls).
  rewrite (filter_cons _ l ls).
  destruct (decide (lid l = j)) as [Hl|Hl].
  - destruct (decide (j = c)) as [Hj|Hj].
    + rewrite decide_True by congruence. done.
    + rewrite decide_False by congruence. done.
  - rewrite filter_cons, IH.
    destruct (decide (j = c)) as [Hj|Hj].
    + rewrite !decide_False by congruence. done.
    + done.
Qed.

Lemma filter_disarm (c j : nat) (ts : list Timer) :
  filter (fun t => tid t = c) (filter (fun t => tid t ≠ j) ts) =
  if decide (j = c) then [] else filter (fun t => tid t = c) ts.
Proof.
  induction ts as [|t ts IH]; [by case_decide|].
  rewrite (filter_cons _ t ts), (filter_cons (fun t => tid t = c) t ts).
  destruct (decide (tid t ≠ j)) as [Ht|Ht].
  - rewrite filter_cons, IH.
    destruct (decide (j = c)) as [Hj|Hj]; [|done].
    rewrite decide_False by congruence. done.
  - rewrite IH. apply dec_stable in Ht.
    destruct (decide (j = c)) as [Hj|Hj]; [done|].
    rewrite decide_False by congruence. done.
Qed.

Lemma view_cleanup (c j : nat) (rt : Runtime) :
  view c (cleanup j rt) =
  if decide (j = c) then (outcome_of c rt, tail (mine c rt), [])
  else view c rt.
Proof.
  unfold view, cleanup, mine, armed, outcome_of. cbn.
  rewrite filter_remove_first, filter_disarm. by case_decide.
Qed.

Lemma view_hit (c : nat) (s : Settled) (rt : Runtime) :
  view c (settle c s (cleanup c rt)) = hit s (view c rt).
Proof.
  rewrite view_settle, decide_True by done.
  pose proof (view_cleanup c c rt) as H. rewrite decide_True in H by done.
  unfold view in H.
  apply pair_equal_spec in H as [H H3]. apply pair_equal_spec in H as [H1 H2].
  unfold view, hit. rewrite H1, H2, H3. reflexivity.
Qed.

Lemma view_miss (c j : nat) (s : Settled) (rt : Runtime) :
  j ≠ c -> view c (settle j s (cleanup j rt)) = view c rt.
Proof.
  intros Hj. rewrite view_settle, decide_False by done.
  rewrite view_cleanup, decide_False by done. reflexivity.
Qed.

Lemma next_settle j s rt : next (settle j s rt) = next rt.
Proof. unfold settle. by destruct (outcome_of j rt). Qed.

Lemma ws_settle j s rt : ws (client (settle j s rt)) = ws (client rt).
Proof. unfold settle. by destruct (outcome_of j rt). Qed.

Lemma listeners_settle j s rt :
  messageListeners (client (settle j s rt)) = messageListeners (client rt).
Proof. unfold settle. by destruct (outcome_of j rt). Qed.

Lemma timers_settle j s rt : timers (settle j s rt) = timers rt.
Proof. unfold settle. by destruct (outcome_of j rt). Qed.

(** The listener closure, seen by a call. *)
Lemma view_listener (c : nat) (l : Listener) (data : JValue) (rt : Runtime) :
  view c (listener l data rt) =
  if decide (lid l = c)
  then (if matches (expectedType l) data then hit (Resolved data) (view c rt)
        else view c rt)
  else view c rt.
Proof.
  unfold listener. destruct (matches (expectedType l) data).
  - case_decide as Hl; [rewrite Hl; apply view_hit | by apply view_miss].
  - by case_decide.
Qed.

Lemma frame_listener (l : Listener) (data : JValue) (rt : Runtime) :
  next (listener l data rt) = next rt /\
  ws (client (listener l data rt)) = ws (client rt).
Proof.
  unfold listener. destruct (matches (expectedType l) data); [|done].
  by rewrite next_settle, ws_settle.
Qed.

(** The dispatch loop keeps whatever every listener keeps. *)
Lemma dispatch_invariant (I : Runtime -> Prop) (data : JValue)
    (snapshot : list Listener) (rt : Runtime) :
  (forall l rt, l ∈ snapshot -> I rt -> I (listener l data rt)) ->
  I rt -> I (foldl (fun rt l => listener l data rt) rt snapshot).
Proof.
  revert rt. induction snapshot as [|l ls IH]; intros rt Hstep HI; [done|].
  cbn. apply IH.
  - intros l' rt' Hl'. apply Hstep. by right.
  - apply Hstep; [by left | done].
Qed.

Lemma view_on_timeout (c j : nat) (rt : Runtime) :
  view c (on_timeout j rt) =
  match list_find (fun t => tid t = j) (timers rt) with
  | Some (_, t) =>
      if decide (j = c)
      then hit (Rejected (timeout_error (t_expected t) (t_ms t))) (view c rt)
      else view c rt
  | None => view c rt
  end.
Proof.
  unfold on_timeout.
  destruct (list_find (fun t => tid t = j) (timers rt)) as [[i t]|]; [|done].
  case_decide as Hj; [subst; apply view_hit | by apply view_miss].
Qed.

Lemma frame_on_timeout (j : nat) (rt : Runtime) :
  next (on_timeout j rt) = next rt /\
  ws (client (on_timeout j rt)) = ws (client rt).
Proof.
  unfold on_timeout.
  destruct (list_find (fun t => tid t = j) (timers rt)) as [[i t]|]; [|done].
  by rewrite next_settle, ws_settle.
Qed.

Lemma view_disconnect (c : nat) (rt : Runtime) :
  view c (disconnect rt) = (outcome_of c rt, [], armed c rt).
Proof.
  unfold view, disconnect, mine, armed, outcome_of.
  destruct (ws (client rt)) as [sock|]; [|done].
  by destruct (readyState sock).
Qed.

Lemma view_on_close (c : nat) (rt : Runtime) : view c (on_close rt) = view c rt.
Proof.
  unfold on_close. destruct (ws (client rt)) as [sock|]; [|done].
  by destruct (onclose sock).
Qed.

Lemma view_on_open (c : nat) (a : string) (rt : Runtime) :
  view c (on_open a rt) = view c rt.
Proof. reflexivity. Qed.

Lemma next_sendCommand cmd expected ms rt :
  next (fst (sendCommand cmd expected ms rt)) = S (next rt) /\
  snd (sendCommand cmd expected ms rt) = next rt.
Proof.
  unfold sendCommand. cbn.
  destruct (ws (client rt)) as [sock|]; cbn; [|by rewrite next_settle].
  destruct (isConnected _) eqn:Hc; cbn; [|by rewrite next_settle].
  destruct (socket_send sock); cbn; [|done].
  by rewrite next_settle.
Qed.

Lemma ws_sendCommand cmd expected ms rt :
  ws (client (fst (sendCommand cmd expected ms rt))) = ws (client rt).
Proof.
  unfold sendCommand. cbn.
  destruct (ws (client rt)) as [sock|] eqn:Hw; cbn; [|by rewrite ws_settle].
  destruct (isConnected _) eqn:Hc; cbn; [|by rewrite ws_settle].
  destruct (socket_send sock); cbn; [|done].
  by rewrite ws_settle.
Qed.

(** A [sendCommand] call, seen by another call. *)
Lemma view_sendCommand_other (c : nat) cmd expected ms rt :
  c ≠ next rt -> view c (fst (sendCommand cmd expected ms rt)) = view c rt.
Proof.
  intros Hc. unfold sendCommand. cbn.
  set (rt0 := {| client := client rt; timers := timers rt; settled := settled rt;
                 ops := ops rt; next := S (next rt) |}).
  assert (H0 : view c rt0 = view c rt) by reflexivity.
  destruct (ws (client rt)) as [sock|]; cbn;
    [|by rewrite view_settle, decide_False].
  destruct (isConnected _); cbn; [|by rewrite view_settle, decide_False].
  set (rt1 := with_client _ _).
  assert (H1 : view c rt1 = view c rt).
  { unfold view, mine, armed, outcome_of, rt1. cbn.
    rewrite !filter_app, !filter_cons, !filter_nil. cbn.
    rewrite !decide_False by congruence. by rewrite !app_nil_r. }
  destruct (socket_send sock); cbn.
  - by rewrite view_miss.
  - exact H1.
Qed.

(** A [sendCommand] call on an open channel, seen by itself. *)
Lemma view_sendCommand_self cmd expected ms rt :
  isConnected (client rt) = true ->
  view (next rt) (fst (sendCommand cmd expected ms rt)) =
  (outcome_of (next rt) rt,
   (mine (next rt) rt ++ [{| lid := next rt; expectedType := expected |}])%list,
   (armed (next rt) rt ++ [{| tid := next rt; t_expected := expected; t_ms := ms |}])%list).
Proof.
  intros Hc. unfold sendCommand. cbn. unfold isConnected in Hc.
  destruct (ws (client rt)) as [sock|] eqn:Hw; [|discriminate].
  unfold isConnected. cbn. rewrite Hw, Hc.
  unfold socket_send. destruct (readyState sock); try discriminate. cbn.
  unfold view, mine, armed, outcome_of. cbn.
  rewrite !filter_app, !filter_cons, !filter_nil. cbn.
  rewrite !decide_True by done. reflexivity.
Qed.

(** ** The states of one call *)

Lemma finished_listener c s l data rt :
  finished c s rt -> finished c s (listener l data rt).
Proof.
  intros [Hv Hn]. split; [|by rewrite (proj1 (frame_listener l data rt))].
  rewrite view_listener. case_decide; [|done].
  destruct (matches _ _); [|done]. by rewrite Hv.
Qed.

Lemma finished_stable c s ev rt :
  finished c s rt -> finished c s (handle rt ev).
Proof.
  intros Hf. destruct ev as [parsed|j| |a|cmd ex ms|]; cbn [handle].
  - unfold on_message. destruct (ws (client rt)) as [sock|]; [|done].
    destruct (onmessage sock); [|done]. destruct parsed as [data|]; [|done].
    apply dispatch_invariant; [|done].
    intros l rt' _. apply finished_listener.
  - destruct Hf as [Hv Hn].
    split; [|by rewrite (proj1 (frame_on_timeout j rt))].
    rewrite view_on_timeout.
    destruct (list_find _ _) as [[i t]|]; [|done].
    case_decide; [|done]. by rewrite Hv.
  - destruct Hf as [Hv Hn]. split; [by rewrite view_on_close|].
    unfold on_close. destruct (ws (client rt)) as [sock|]; [|done].
    by destruct (onclose sock).
  - done.
  - destruct Hf as [Hv Hn]. split.
    + rewrite view_sendCommand_other; [done | lia].
    + rewrite (proj1 (next_sendCommand cmd ex ms rt)). lia.
  - destruct Hf as [Hv Hn]. split.
    + rewrite view_disconnect. unfold view in Hv.
      apply pair_equal_spec in Hv as [Hv H3]. apply pair_equal_spec in Hv as [H1 H2].
      by rewrite H1, H3.
    + unfold disconnect. destruct (ws (client rt)) as [sock|]; [|done].
      by destruct (readyState sock).
Qed.

Lemma finished_run c s evs rt :
  finished c s rt -> finished c s (run evs rt).
Proof.
  revert rt. induction evs as [|ev evs IH]; intros rt Hf; [done|].
  cbn. apply IH. by apply finished_stable.
Qed.

Lemma mine_in_snapshot c rt l :
  l ∈ messageListeners (client rt) -> lid l = c -> l ∈ mine c rt.
Proof. intros Hl Hc. unfold mine. by apply list_elem_of_filter. Qed.

Lemma in_flight_owner c expected ms rt l :
  in_flight c expected ms rt ->
  l ∈ messageListeners (client rt) -> lid l = c -> expectedType l = expected.
Proof.
  intros (_ & _ & Hm & _) Hl Hc.
  pose proof (mine_in_snapshot c rt l Hl Hc) as Hin.
  destruct Hm as [Hm|Hm]; rewrite Hm in Hin.
  - by apply elem_of_nil in Hin.
  - apply list_elem_of_singleton in Hin. by subst l.
Qed.

Lemma in_flight_view c expected ms rt rt' :
  view c rt' = view c rt -> next rt <= next rt' ->
  in_flight c expected ms rt -> in_flight c expected ms rt'.
Proof.
  intros Hv Hn (Ho & Ha & Hm & Hc). unfold view in Hv.
  apply pair_equal_spec in Hv as [Hv H3]. apply pair_equal_spec in Hv as [H1 H2].
  unfold in_flight. rewrite H1, H2, H3. repeat split; try done. lia.
Qed.

Lemma in_flight_listener c expected ms l data rt :
  (lid l = c -> matches (expectedType l) data = false) ->
  in_flight c expected ms rt -> in_flight c expected ms (listener l data rt).
Proof.
  intros Hl. apply in_flight_view.
  - rewrite view_listener. case_decide as Hc; [|done]. by rewrite (Hl Hc).
  - by rewrite (proj1 (frame_listener l data rt)).
Qed.

Lemma in_flight_quiet c expected ms ev rt :
  quiet c expected ev ->
  in_flight c expected ms rt -> in_flight c expected ms (handle rt ev).
Proof.
  intros Hq Hf. destruct ev as [parsed|j| |a|cmd ex t|]; cbn [handle].
  - unfold on_message. destruct (ws (client rt)) as [sock|]; [|done].
    destruct (onmessage sock); [|done]. destruct parsed as [data|]; [|done].
    cbn in Hq. apply dispatch_invariant; [|done].
    intros l rt' Hl. apply in_flight_listener. intros Hc.
    by rewrite (in_flight_owner c expected ms rt l Hf Hl Hc).
  - cbn in Hq. revert Hf. apply in_flight_view.
    + rewrite view_on_timeout. destruct (list_find _ _) as [[i t']|]; [|done].
      by rewrite decide_False.
    + by rewrite (proj1 (frame_on_timeout j rt)).
  - revert Hf. apply in_flight_view; [apply view_on_close|].
    unfold on_close. destruct (ws (client rt)) as [sock|]; [|done].
    by destruct (onclose sock).
  - done.
  - revert Hf. intros Hf. eapply in_flight_view; [| |exact Hf].
    + apply view_sendCommand_other. destruct Hf as (_ & _ & _ & Hc). lia.
    + rewrite (proj1 (next_sendCommand cmd ex t rt)). lia.
  - destruct Hf as (Ho & Ha & Hm & Hc).
    pose proof (view_disconnect c rt) as Hv. unfold view in Hv.
    apply pair_equal_spec in Hv as [Hv H3]. apply pair_equal_spec in Hv as [H1 H2].
    unfold in_flight. rewrite H1, H2, H3. repeat split; try done; [by left|].
    unfold disconnect. destruct (ws (client rt)) as [sock|]; [|done].
    by destruct (readyState sock).
Qed.

Lemma in_flight_run c expected ms evs rt :
  Forall (quiet c expected) evs ->
  in_flight c expected ms rt -> in_flight c expected ms (run evs rt).
Proof.
  revert rt. induction evs as [|ev evs IH]; intros rt Hq Hf; [done|].
  apply Forall_cons in Hq as [Hev Hq]. cbn. apply IH; [done|].
  by apply in_flight_quiet.
Qed.

(** The timeout of a call in flight rejects it and leaves nothing behind. *)
Lemma in_flight_timeout c expected ms rt :
  in_flight c expected ms rt ->
  finished c (Rejected (timeout_error expected ms)) (on_timeout c rt).
Proof.
  intros (Ho & Ha & Hm & Hc).
  split; [|by rewrite (proj1 (frame_on_timeout c rt))].
  rewrite view_on_timeout.
  destruct (list_find (fun t => tid t = c) (timers rt)) as [[i t]|] eqn:Hfind.
  - apply list_find_Some in Hfind as (Hi & Ht & _).
    assert (Hin : t ∈ armed c rt).
    { unfold armed. apply list_elem_of_filter. split; [done|].
      by eapply list_elem_of_lookup_2. }
    rewrite Ha in Hin. apply list_elem_of_singleton in Hin. subst t.
    rewrite decide_True by done. unfold view, hit. rewrite Ho. cbn.
    by destruct Hm as [-> | ->].
  - apply list_find_None in Hfind.
    assert (Hin : {| tid := c; t_expected := expected; t_ms := ms |} ∈ armed c rt).
    { rewrite Ha. by left. }
    unfold armed in Hin. apply list_elem_of_filter in Hin as [_ Hin].
    rewrite Forall_forall in Hfind. by destruct (Hfind _ Hin).
Qed.

(** ** Unused identities *)

Lemma well_formed_stable ev rt : well_formed rt -> well_formed (handle rt ev).
Proof.
  intros Hwf c Hc.
  assert (Hn : next rt <= next (handle rt ev)).
  { destruct ev as [parsed|j| |a|cmd ex t|]; cbn [handle].
    - unfold on_message. destruct (ws (client rt)) as [sock|]; [|done].
      destruct (onmessage sock); [|done]. destruct parsed as [data|]; [|done].
      apply (dispatch_invariant (fun rt' => next rt <= next rt')); [|done].
      intros l rt' _ H. by rewrite (proj1 (frame_listener l data rt')).
    - by rewrite (proj1 (frame_on_timeout j rt)).
    - unfold on_close. destruct (ws (client rt)) as [sock|]; [|done].
      by destruct (onclose sock).
    - done.
    - rewrite (proj1 (next_sendCommand cmd ex t rt)). lia.
    - unfold disconnect. destruct (ws (client rt)) as [sock|]; [|done].
      by destruct (readyState sock). }
  assert (Hunused : view c rt = (None, [], [])).
  { destruct (Hwf c ltac:(lia)) as (H1 & H2 & H3). unfold view. by rewrite H1, H2, H3. }
  assert (Hgoal : view c (handle rt ev) = (None, [], [])).
  { destruct ev as [parsed|j| |a|cmd ex t|]; cbn [handle] in *.
    - unfold on_message. destruct (ws (client rt)) as [sock|]; [|done].
      destruct (onmessage sock); [|done]. destruct parsed as [data|]; [|done].
      apply (dispatch_invariant (fun rt' => view c rt' = (None, [], []))); [|done].
      intros l rt' Hl Hv. rewrite view_listener, decide_False; [done|].
      intros Hlc. pose proof (mine_in_snapshot c rt l Hl Hlc) as Hin.
      destruct (Hwf c ltac:(lia)) as (H1 & _). rewrite H1 in Hin.
      by apply elem_of_nil in Hin.
    - rewrite view_on_timeout.
      destruct (list_find (fun t => tid t = j) (timers rt)) as [[i t']|] eqn:Hfind;
        [|done].
      rewrite decide_False; [done|]. intros ->.
      apply list_find_Some in Hfind as (Hi & Ht & _).
      assert (Hin : t' ∈ armed c rt).
      { unfold armed. apply list_elem_of_filter. split; [done|].
        by eapply list_elem_of_lookup_2. }
      destruct (Hwf c ltac:(lia)) as (_ & H2 & _). rewrite H2 in Hin.
      by apply elem_of_nil in Hin.
    - by rewrite view_on_close.
    - done.
    - rewrite view_sendCommand_other; [done|].
      rewrite (proj1 (next_sendCommand cmd ex t rt)) in Hc. lia.
    - rewrite view_disconnect. unfold view in Hunused.
      apply pair_equal_spec in Hunused as [Hv H3].
      apply pair_equal_spec in Hv as [H1 H2]. by rewrite H1, H3. }
  unfold view in Hgoal.
  apply pair_equal_spec in Hgoal as [Hv H3]. apply pair_equal_spec in Hv as [H1 H2].
  done.
Qed.

Lemma well_formed_run evs rt : well_formed rt -> well_formed (run evs rt).
Proof.
  revert rt. induction evs as [|ev evs IH]; intros rt Hwf; [done|].
  cbn. apply IH. by apply well_formed_stable.
Qed.



(** ** A call whose listener is registered on a listening channel *)

Lemma calm_quiet c expected ev : calm c expected ev -> quiet c expected ev.
Proof. destruct ev as [[data|]|j| |a|cmd ex t|]; cbn; done. Qed.

Lemma calm_frame c expected ms ev rt :
  in_flight c expected ms rt -> calm c expected ev ->
  view c (handle rt ev) = view c rt /\
  ws (client (handle rt ev)) = ws (client rt).
Proof.
  intros Hf Hcalm. destruct ev as [parsed|j| |a|cmd ex t|]; cbn [handle]; try done.
  - unfold on_message. destruct (ws (client rt)) as [sock|] eqn:Hw; [|done].
    destruct (onmessage sock); [|done]. destruct parsed as [data|]; [|done].
    cbn in Hcalm.
    apply (dispatch_invariant
             (fun rt' => view c rt' = view c rt /\ ws (client rt') = Some sock));
      [|done].
    intros l rt' Hl [Hv Hs]. split.
    + rewrite view_listener. case_decide as Hc; [|done].
      by rewrite (in_flight_owner c expected ms rt l Hf Hl Hc), Hcalm.
    + by rewrite (proj2 (frame_listener l data rt')).
  - cbn in Hcalm. split; [|apply frame_on_timeout].
    rewrite view_on_timeout. destruct (list_find _ _) as [[i t']|]; [|done].
    by rewrite decide_False.
  - split; [|apply ws_sendCommand].
    apply view_sendCommand_other. destruct Hf as (_ & _ & _ & Hc). lia.
Qed.

Lemma attached_calm c expected ms ev rt :
  calm c expected ev ->
  attached c expected ms rt -> attached c expected ms (handle rt ev).
Proof.
  intros Hcalm (Hf & Hm & Hl).
  destruct (calm_frame c expected ms ev rt Hf Hcalm) as [Hv Hw].
  split; [by apply in_flight_quiet; [apply calm_quiet|] |].
  split.
  - unfold view in Hv.
    apply pair_equal_spec in Hv as [Hv _]. apply pair_equal_spec in Hv as [_ H2].
    by rewrite H2.
  - unfold listening. by rewrite Hw.
Qed.

Lemma attached_run c expected ms evs rt :
  Forall (calm c expected) evs ->
  attached c expected ms rt -> attached c expected ms (run evs rt).
Proof.
  revert rt. induction evs as [|ev evs IH]; intros rt Hq Hf; [done|].
  apply Forall_cons in Hq as [Hev Hq]. cbn. apply IH; [done|].
  by apply attached_calm.
Qed.

(** A frame with the expected type tag resolves the call with that frame
    and leaves nothing behind. *)
Lemma attached_match c expected ms data rt :
  attached c expected ms rt -> matches expected data = true ->
  finished c (Resolved data) (on_message (Some data) rt).
Proof.
  intros ((Ho & Ha & _ & Hc) & Hm & (sock & Hw & _ & Hom)) Hmatch.
  unfold on_message. rewrite Hw, Hom.
  set (mineL := {| lid := c; expectedType := expected |}) in *.
  assert (Hin : mineL ∈ messageListeners (client rt)).
  { assert (H : mineL ∈ mine c rt) by (rewrite Hm; by left).
    unfold mine in H. by apply list_elem_of_filter in H as [_ H]. }
  assert (Hown : forall l, l ∈ messageListeners (client rt) -> lid l = c ->
                           expectedType l = expected).
  { intros l Hl Hlc. pose proof (mine_in_snapshot c rt l Hl Hlc) as H.
    rewrite Hm in H. apply list_elem_of_singleton in H. by subst l. }
  apply list_elem_of_split in Hin as (L1 & L2 & Hsplit).
  rewrite Hsplit in *. rewrite foldl_app. cbn [foldl].
  set (I1 := fun rt' : Runtime =>
               (view c rt' = view c rt \/ finished c (Resolved data) rt')
               /\ c < next rt').
  assert (H1 : I1 (foldl (fun rt0 l => listener l data rt0) rt L1)).
  { apply (dispatch_invariant I1); [|by split; [left|]].
    intros l rt' Hl [Hv Hn]. split; [|by rewrite (proj1 (frame_listener l data rt'))].
    destruct Hv as [Hv|Hv]; [|right; by apply finished_listener].
    rewrite view_listener. case_decide as Hlc; [|by left].
    rewrite (Hown l) by (try done; apply elem_of_app; by left).
    rewrite Hmatch. right. split; [|by rewrite (proj1 (frame_listener l data rt'))].
    rewrite view_listener, decide_True by done.
    rewrite (Hown l) by (try done; apply elem_of_app; by left).
    rewrite Hmatch, Hv. unfold view, hit. by rewrite Ho, Hm. }
  apply dispatch_invariant; [intros l rt' _; apply finished_listener|].
  destruct H1 as [[Hv|Hv] Hn]; [|by apply finished_listener].
  split; [|by rewrite (proj1 (frame_listener mineL data _))].
  rewrite view_listener, decide_True by done. cbn [expectedType mineL].
  rewrite Hmatch, Hv. unfold view, hit. by rewrite Ho, Hm.
Qed.

(** What [sendCommand] sets up on a listening channel. *)
Lemma sendCommand_attached cmd expected ms rt :
  well_formed rt -> listening rt ->
  attached (snd (sendCommand cmd expected ms rt)) expected ms
           (fst (sendCommand cmd expected ms rt)) /\
  ops (fst (sendCommand cmd expected ms rt)) =
    (ops rt ++ [SockSend (command_json cmd)])%list.
Proof.
  intros Hwf (sock & Hw & Hopen & Hom).
  assert (Hconn : isConnected (client rt) = true).
  { unfold isConnected. by rewrite Hw, Hopen. }
  pose proof (view_sendCommand_self cmd expected ms rt Hconn) as Hv.
  destruct (next_sendCommand cmd expected ms rt) as [Hn Hc]. rewrite Hc.
  destruct (Hwf (next rt) ltac:(lia)) as (H1 & H2 & H3).
  rewrite H1, H2, H3 in Hv. cbn in Hv. unfold view in Hv.
  apply pair_equal_spec in Hv as [Hv Hb]. apply pair_equal_spec in Hv as [Ho Hm].
  split.
  - split; [|split].
    + unfold in_flight. rewrite Ho, Hb, Hm, Hn. repeat split; try done; [by right | lia].
    + done.
    + exists sock. by rewrite ws_sendCommand.
  - unfold sendCommand. cbn. rewrite Hw. unfold isConnected. cbn. rewrite Hw, Hopen.
    unfold socket_send. rewrite Hopen. reflexivity.
Qed.

(** C5: a sendCommand call on an open channel.  If the timeout of the call
    fires after events among which no frame with the expected type tag
    arrived, the call rejects with the timeout error; if such a frame
    arrives first, the call resolves with it.  In both cases the listener
    of the call is no longer in the client's list and its timeout is no
    longer armed, and a later identical call resolves with its own frame
    while the first call keeps its timeout rejection. *)
Theorem sendCommand_settles_and_cleans_up (rt : Runtime) (cmd : WsCommand)
    (expected : string) (ms : Z) :
  well_formed rt -> listening rt ->
  let rt1 := fst (sendCommand cmd expected ms rt) in
  let c := snd (sendCommand cmd expected ms rt) in
  ops rt1 = (ops rt ++ [SockSend (command_json cmd)])%list /\
  outcome_of c rt1 = None /\
  (forall evs : list Event, Forall (quiet c expected) evs ->
     let rt2 := on_timeout c (run evs rt1) in
     outcome_of c rt2 = Some (Rejected (timeout_error expected ms)) /\
     mine c rt2 = [] /\ armed c rt2 = [] /\
     (listening rt2 ->
      let rt3 := fst (sendCommand cmd expected ms rt2) in
      let c2 := snd (sendCommand cmd expected ms rt2) in
      c2 <> c /\
      forall (evs' : list Event) (data : JValue),
        Forall (calm c2 expected) evs' -> matches expected data = true ->
        let rt4 := on_message (Some data) (run evs' rt3) in
        outcome_of c2 rt4 = Some (Resolved data) /\
        mine c2 rt4 = [] /\ armed c2 rt4 = [] /\
        outcome_of c rt4 = Some (Rejected (timeout_error expected ms)))) /\
  (forall (evs : list Event) (data : JValue),
     Forall (calm c expected) evs -> matches expected data = true ->
     let rt2 := on_message (Some data) (run evs rt1) in
     outcome_of c rt2 = Some (Resolved data) /\
     mine c rt2 = [] /\ armed c rt2 = []).
Proof.
  intros Hwf Hl rt1 c.
  destruct (sendCommand_attached cmd expected ms rt Hwf Hl) as [Hatt Hops].
  fold rt1 c in Hatt, Hops.
  assert (Hview : forall k s r, finished k s r ->
            outcome_of k r = Some s /\ mine k r = [] /\ armed k r = []).
  { intros k s r [Hv _]. unfold view in Hv.
    apply pair_equal_spec in Hv as [Hv H3]. by apply pair_equal_spec in Hv as [H1 H2]. }
  split; [exact Hops|]. split; [by destruct Hatt as ((Hpend & _) & _)|]. split.
  - intros evs Hq rt2.
    assert (Hfin : finished c (Rejected (timeout_error expected ms)) rt2).
    { apply in_flight_timeout, in_flight_run; [done | apply Hatt]. }
    destruct (Hview _ _ _ Hfin) as (H1 & H2 & H3).
    split; [done|]. split; [done|]. split; [done|].
    intros Hl2 rt3 c2.
    assert (Hwf2 : well_formed rt2).
    { apply (well_formed_stable (TimerFired c)), well_formed_run.
      assert (Hstep : rt1 = handle rt (CallSendCommand cmd expected ms)) by done.
      rewrite Hstep. by apply well_formed_stable. }
    destruct (sendCommand_attached cmd expected ms rt2 Hwf2 Hl2) as [Hatt2 _].
    fold rt3 c2 in Hatt2.
    assert (Hc2 : c2 = next rt2) by apply next_sendCommand.
    split; [destruct Hfin as [_ Hlt]; lia|].
    intros evs' data Hcalm Hmatch rt4.
    assert (Hfin2 : finished c2 (Resolved data) rt4).
    { apply (attached_match c2 expected ms); [|done]. by apply attached_run. }
    destruct (Hview _ _ _ Hfin2) as (G1 & G2 & G3).
    split; [done|]. split; [done|]. split; [done|].
    assert (Hkeep : finished c (Rejected (timeout_error expected ms)) rt4).
    { apply (finished_stable _ _ (Frame (Some data))), finished_run.
      assert (Hstep : rt3 = handle rt2 (CallSendCommand cmd expected ms)) by done.
      rewrite Hstep. by apply finished_stable. }
    apply (Hview _ _ _ Hkeep).
  - intros evs data Hcalm Hmatch rt2.
    apply (Hview c (Resolved data)), (attached_match c expected ms); [|done].
    by apply attached_run.
Qed.

Lemma sendCommand_settles_and_cleans_up_witness :
  well_formed demo_channel /\ listening demo_channel /\
  outcome_of 0
    (on_timeout 0
       (run [Frame None; Frame (Some (JObj [("type", JStr "setModeResult")]))]
          (fst (sendCommand (SetFreq 0 14074000) "setFreqResult" 5000 demo_channel))))
  = Some (Rejected (timeout_error "setFreqResult" 5000)).
Proof.
  assert (Hwf : well_formed demo_channel) by (intros c _; done).
  assert (Hl : listening demo_channel) by (eexists; done).
  split; [exact Hwf|]. split; [exact Hl|].
  pose proof (sendCommand_settles_and_cleans_up demo_channel (SetFreq 0 14074000)
                "setFreqResult" 5000 Hwf Hl) as (_ & _ & Htimeout & _).
  refine (proj1 (Htimeout
            [Frame None; Frame (Some (JObj [("type", JStr "setModeResult")]))] _)).
  repeat constructor.
Defined.

End ChannelFacts.

(* ================================================================== *)
(** * Facts about the recording flow and the backup alarm *)
(* ================================================================== *)

Section EngineFacts.
Import Types Async Storage Engine Spec.

Lemma addLog_log_only {E : Type} (w : World E) (e : E) (v : Vars) lvl msg data :
  Forall log_only (trace (exec w (addLog lvl msg data) e v)) /\
  ((forall e' v', interfere w e' v' = v') ->
   vars (exec w (addLog lvl msg data) e v) = v).
Proof.
  unfold addLog. cbn -[cap].
  destruct (answer w e DateNow) as [now e1]. cbn -[cap].
  destruct (respond w e1 StorageGetLogs) as [[err|stored] e2]; cbn -[cap].
  - split; [repeat constructor|]. intros Hid. apply Hid.
  - destruct (respond w e2 (StorageSetLogs _)) as [[err|[]] e3]; cbn -[cap];
      (split; [repeat constructor|]); intros Hid; by rewrite !Hid.
Qed.

(** C2: a flow requested while the engine is neither idle nor in error does
    what the one addLog call of the busy branch does and nothing else: the
    only operations are that log entry (console line, read and write of the
    stored log), so no connection, no command, no offscreen call; and the
    module variables are as the flow found them. *)
Theorem executeRecordingFlow_busy_only_logs {E : Type} (w : World E) (e : E)
    (v : Vars) (params : RecordingParams) :
  currentState v <> idle -> currentState v <> error ->
  exec w (executeRecordingFlow params) e v = exec w (busy_log v) e v /\
  Forall log_only (trace (exec w (executeRecordingFlow params) e v)) /\
  ((forall e' v', interfere w e' v' = v') ->
   vars (exec w (executeRecordingFlow params) e v) = v).
Proof.
  intros Hidle Herr.
  assert (Heq : exec w (executeRecordingFlow params) e v = exec w (busy_log v) e v).
  { unfold executeRecordingFlow. cbn.
    rewrite decide_False by done. cbn. rewrite decide_True by done. reflexivity. }
  rewrite Heq. split; [reflexivity|]. apply addLog_log_only.
Qed.

Lemma executeRecordingFlow_busy_only_logs_witness :
  currentState recording_vars <> idle /\ currentState recording_vars <> error /\
  Forall log_only
    (trace (exec accepting_bridge (executeRecordingFlow one_minute_FM) tt recording_vars)) /\
  vars (exec accepting_bridge (executeRecordingFlow one_minute_FM) tt recording_vars)
    = recording_vars.
Proof.
  assert (H1 : currentState recording_vars <> idle) by discriminate.
  assert (H2 : currentState recording_vars <> error) by discriminate.
  destruct (executeRecordingFlow_busy_only_logs accepting_bridge tt recording_vars
              one_minute_FM H1 H2) as (_ & Hlog & Hvars).
  split; [exact H1|]. split; [exact H2|]. split; [exact Hlog|].
  apply Hvars. reflexivity.
Defined.

(** Symbolic execution: case on what the world answers next. *)
Ltac next_reply w :=
  match goal with
  | |- context [respond w ?e ?c] =>
      let r := fresh "r" in let e' := fresh "e" in
      destruct (respond w e c) as [[r|r] e']
  | |- context [answer w ?e ?q] =>
      let r := fresh "r" in let e' := fresh "e" in
      destruct (answer w e q) as [r e']
  end.

Ltac next_branch :=
  match goal with
  | |- context [decide ?P] => destruct (decide P)
  | |- context [if ?b then _ else _] => destruct b eqn:?
  end.

Ltac sim :=
  cbn -[truthy_opt field failure_message String.append JS.String_of_Z buildWsUrl
        Z.mul Z.add Z.max message_of String_of_thrown JS.includes cap unshift].













End EngineFacts.

(* ================================================================== *)
(** * The invariant of the engine state *)
(* ================================================================== *)

Section InvariantFacts.
Import Types Async Storage Engine Spec.

Lemma safe_bind {A B : Type} (p : Prog A) (f : A -> Prog B) :
  safe p -> (forall a, safe (f a)) -> safe (bind p f).
Proof.
  intros Hp Hf. induction p as [a|x|k IH|g k IH|o k IH|R q k IH|R c k IH]; cbn in *.
  - apply Hf.
  - exact I.
  - intros v. by apply IH.
  - destruct Hp as [Hg Hk]. split; [done | by apply IH].
  - by apply IH.
  - intros r. by apply IH.
  - intros r. by apply IH.
Qed.

Lemma safe_mbind {A B : Type} (p : Prog A) (f : A -> Prog B) :
  safe p -> (forall a, safe (f a)) -> safe (mbind f p).
Proof. apply safe_bind. Qed.

Lemma safe_try_catch {A : Type} (p : Prog A) (h : Thrown -> Prog A) :
  safe p -> (forall x, safe (h x)) -> safe (try_catch p h).
Proof.
  intros Hp Hh. induction p as [a|x|k IH|g k IH|o k IH|R q k IH|R c k IH]; cbn in *.
  - exact I.
  - apply Hh.
  - intros v. by apply IH.
  - destruct Hp as [Hg Hk]. split; [done | by apply IH].
  - by apply IH.
  - intros r. by apply IH.
  - intros r. by apply IH.
Qed.

Lemma safe_try_finally {A : Type} (p : Prog A) (f : Prog unit) :
  safe p -> safe f -> safe (try_finally p f).
Proof.
  intros Hp Hf. induction p as [a|x|k IH|g k IH|o k IH|R q k IH|R c k IH]; cbn in *.
  - by apply safe_bind.
  - by apply safe_bind.
  - intros v. by apply IH.
  - destruct Hp as [Hg Hk]. split; [done | by apply IH].
  - by apply IH.
  - intros r. by apply IH.
  - intros r. by apply IH.
Qed.

Lemma safe_await {R : Type} (c : Call R) : safe (await c).
Proof. intros [x|r]; exact I. Qed.

Lemma safe_setState_plain (s : RecordingState) :
  s <> error -> safe (setState s None).
Proof.
  intros Hs. split; [|exact I]. intros v _. unfold error_iff. cbn.
  split; [done | by intros ->].
Qed.

Lemma safe_setState_error (text : string) : safe (setState error (Some text)).
Proof. split; [|exact I]. intros v _. unfold error_iff. cbn. done. Qed.

Lemma safe_write_frame (f : Vars -> Vars) :
  (forall v, currentState (f v) = currentState v /\ errorMessage (f v) = errorMessage v) ->
  safe (write f).
Proof.
  intros Hf. split; [|exact I]. intros v Hv. unfold error_iff in *.
  destruct (Hf v) as [-> ->]. exact Hv.
Qed.

Lemma safe_addLog lvl msg data : safe (addLog lvl msg data).
Proof.
  unfold addLog. intros now. cbn. intros [x|stored]; cbn; [exact I|].
  intros [x|[]]; exact I.
Qed.

Ltac safe_step :=
  match goal with
  | |- safe (Ret _) => exact I
  | |- safe (mret _) => exact I
  | |- safe (Throw _) => exact I
  | |- safe (throw _) => exact I
  | |- safe (addLog _ _ _) => apply safe_addLog
  | |- safe (await _) => apply safe_await
  | |- safe (emit _) => exact I
  | |- safe (ask _) => intros ?; exact I
  | |- safe read => intros ?; exact I
  | |- safe (setState error (Some _)) => apply safe_setState_error
  | |- safe (setState _ None) => apply safe_setState_plain; discriminate
  | |- safe (write (set_currentFreq _)) => apply safe_write_frame; intros ?; split; reflexivity
  | |- safe (write (set_currentMode _)) => apply safe_write_frame; intros ?; split; reflexivity
  | |- safe (write (set_recordingElapsed _)) => apply safe_write_frame; intros ?; split; reflexivity
  | |- safe (write (set_recordingTotal _)) => apply safe_write_frame; intros ?; split; reflexivity
  | |- safe (write (set_progressInterval _)) => apply safe_write_frame; intros ?; split; reflexivity
  | |- safe (try_catch _ _) => apply safe_try_catch
  | |- safe (try_finally _ _) => apply safe_try_finally
  | |- safe (mbind _ _) => apply safe_mbind
  | |- safe (bind _ _) => apply safe_bind
  | |- safe (if ?b then _ else _) => destruct b
  | |- safe (match ?x with _ => _ end) => destruct x
  | |- forall _, _ => intros ?
  end.

Ltac safe_auto := repeat safe_step.

Lemma safe_resetState : safe resetState.
Proof. unfold resetState. safe_auto. Qed.

Lemma safe_closeOffscreen : safe closeOffscreen.
Proof. unfold closeOffscreen. safe_auto. Qed.

Lemma safe_ensureOffscreen : safe ensureOffscreen.
Proof. unfold ensureOffscreen. safe_auto. Qed.

Lemma safe_clearProgressInterval : safe clearProgressInterval.
Proof. unfold clearProgressInterval. safe_auto. Qed.

Lemma safe_getSettings : safe getSettings.
Proof. unfold getSettings. safe_auto. Qed.

Ltac safe_known :=
  match goal with
  | |- safe resetState => apply safe_resetState
  | |- safe closeOffscreen => apply safe_closeOffscreen
  | |- safe ensureOffscreen => apply safe_ensureOffscreen
  | |- safe clearProgressInterval => apply safe_clearProgressInterval
  | |- safe getSettings => apply safe_getSettings
  | |- safe getSchedules => unfold getSchedules
  | |- safe (saveSchedules _) => unfold saveSchedules
  | |- safe (sendToOffscreen _) => unfold sendToOffscreen
  | |- safe (buildFilename _ _ _ _) => unfold buildFilename
  | |- safe (setFrequency _ _) => unfold setFrequency
  | |- safe (setMode _ _) => unfold setMode
  | |- safe (startCapture _ _) => unfold startCapture
  | |- safe (handleRecordingResult _ _ _ _) => unfold handleRecordingResult
  | |- safe onStopAlarm => unfold onStopAlarm
  | |- safe (onScheduleAlarm _) => unfold onScheduleAlarm
  end.

Ltac safe_all := repeat first [ safe_known | safe_step ].

Lemma safe_executeRecordingFlow params : safe (executeRecordingFlow params).
Proof. unfold executeRecordingFlow. safe_all. Qed.

Lemma safe_stopRecording : safe stopRecording.
Proof. unfold stopRecording. safe_all. Qed.

Lemma safe_handleOffscreenMessage msg : safe (handleOffscreenMessage msg).
Proof. unfold handleOffscreenMessage. safe_all. Qed.

Lemma safe_progressTick start : safe (progressTick start).
Proof. unfold progressTick. safe_all. Qed.

Lemma safe_onAlarm alarm : safe (onAlarm alarm).
Proof.
  unfold onAlarm. safe_all; try apply safe_executeRecordingFlow.
Qed.

Lemma handler_safe (h : Prog unit) : handler h -> safe h.
Proof.
  intros [params| | |msg|alarm|start].
  - apply safe_executeRecordingFlow.
  - apply safe_stopRecording.
  - apply safe_resetState.
  - apply safe_handleOffscreenMessage.
  - apply safe_onAlarm.
  - apply safe_progressTick.
Qed.

Lemma step_safe v p v' p' :
  step v p v' p' -> error_iff v -> safe p -> error_iff v' /\ safe p'.
Proof.
  intros Hstep Hv Hp. destruct Hstep; cbn in Hp.
  - split; [done | apply Hp].
  - destruct Hp as [Hf Hk]. split; [by apply Hf | done].
  - done.
  - split; [done | apply Hp].
  - split; [done | apply Hp].
Qed.

Lemma reachable_safe v pool :
  reachable v pool -> error_iff v /\ Forall safe pool.
Proof.
  induction 1 as [|v pool h _ [IHv IHp] Hh|v pool1 p pool2 v' p' _ [IHv IHp] Hstep].
  - split; [|constructor]. unfold error_iff. cbn. split; [done | discriminate].
  - split; [done|]. constructor; [by apply handler_safe | done].
  - apply Forall_app in IHp as [H1 H2]. apply Forall_cons in H2 as [Hp H2].
    destruct (step_safe _ _ _ _ Hstep IHv Hp) as [Hv' Hp'].
    split; [done|]. apply Forall_app. split; [done|]. by constructor.
Qed.

(** Running a handler to its end, with no other handler in between, is a
    sequence of steps of the service worker. *)
Lemma exec_reachable {E : Type} (w : World E) (p : Prog unit) (e : E) (v : Vars)
    (pool : list (Prog unit)) :
  (forall e v, interfere w e v = v) ->
  reachable v (p :: pool) ->
  exists p', reachable (vars (exec w p e v)) (p' :: pool).
Proof.
  intros Hid. revert e v.
  induction p as [a|x|k IH|f k IH|o k IH|R q k IH|R c k IH]; intros e v Hr; cbn.
  - by eexists.
  - by eexists.
  - apply IH. apply (reach_step v [] (Read k) pool v (k v)); [done | constructor].
  - apply IH. apply (reach_step v [] (Write f k) pool (f v) k); [done | constructor].
  - apply IH. apply (reach_step v [] (Emit o k) pool v k); [done | constructor].
  - destruct (answer w e q) as [r e'] eqn:Ha. apply IH.
    apply (reach_step v [] (Ask q k) pool v (k r)); [done | constructor].
  - destruct (respond w e c) as [r e'] eqn:Ha. cbn. rewrite Hid. apply IH.
    apply (reach_step v [] (Await c k) pool v (k r)); [done | constructor].
Qed.

(** C6, as written, fails: a flow started with no audio device configured
    ends in the error state with the elapsed and total counters set. *)
Lemma counters_survive_outside_recording :
  ~ (forall (v : Vars) (pool : list (Prog unit)),
       reachable v pool -> currentState v <> recording ->
       recordingElapsed v = None /\ recordingTotal v = None /\
       (errorMessage v <> None -> currentState v = error)).
Proof.
  intros H.
  destruct (exec_reachable accepting_bridge (executeRecordingFlow one_minute_FM)
              tt init_vars [])
    as [p' Hreach].
  - done.
  - apply reach_start; [apply reach_init | constructor].
  - apply H in Hreach.
    + destruct Hreach as [Helapsed _]. vm_compute in Helapsed. discriminate.
    + vm_compute. discriminate.
Qed.

Example no_device_flow_ends_in_error :
  let v := vars (exec accepting_bridge (executeRecordingFlow one_minute_FM) tt init_vars) in
  currentState v = error /\
  recordingElapsed v = Some 0%Z /\ recordingTotal v = Some 60%Z /\
  errorMessage v =
    Some "Recording start failed: No audio device selected. Please configure in Options.".
Proof. vm_compute. done. Qed.

(** C6 (amended): in every reachable state of the engine the error message
    is set exactly when the state is error.  The elapsed and total counters
    are null initially and after every setState to idle; setState to any
    other state (saving and error included) keeps them. *)
Theorem error_message_exactly_in_error (v : Vars) (pool : list (Prog unit)) :
  reachable v pool ->
  (errorMessage v <> None <-> currentState v = error) /\
  (recordingElapsed init_vars = None /\ recordingTotal init_vars = None) /\
  (forall err v0,
      recordingElapsed (assign_state idle err v0) = None /\
      recordingTotal (assign_state idle err v0) = None) /\
  (forall s err v0, s <> idle ->
      recordingElapsed (assign_state s err v0) = recordingElapsed v0 /\
      recordingTotal (assign_state s err v0) = recordingTotal v0).
Proof.
  intros Hr. split; [apply (reachable_safe v pool Hr)|].
  split; [done|]. split; [done|].
  intros s err v0 Hs. cbn. by rewrite !decide_False.
Qed.

Lemma error_message_exactly_in_error_witness :
  let v := vars (exec accepting_bridge (executeRecordingFlow one_minute_FM) tt init_vars) in
  exists p' : Prog unit,
    reachable v [p'] /\
    (errorMessage v <> None <-> currentState v = error).
Proof.
  destruct (exec_reachable accepting_bridge (executeRecordingFlow one_minute_FM)
              tt init_vars [] (fun _ _ => eq_refl)
              (reach_start _ _ _ reach_init (h_flow one_minute_FM)))
    as [p' Hreach].
  exists p'. split; [exact Hreach|].
  apply (error_message_exactly_in_error _ _ Hreach).
Defined.

End InvariantFacts.

(* ================================================================== *)
(** * Further facts about lib/storage.ts *)
(* ================================================================== *)

Section MoreStorageFacts.
Import Types Async Storage Spec StorageSpec.

(** ** Settings *)

Lemma spread_all (s : Settings) : spread DEFAULT_SETTINGS (all_settings s) = s.
Proof. by destruct s. Qed.

Lemma spread_overlay (s : Settings) (p1 p2 : PartialSettings) :
  spread (spread s p1) p2 = spread s (overlay p1 p2).
Proof.
  destruct p1 as [a1 a2 a3 a4 a5 a6 a7], p2 as [b1 b2 b3 b4 b5 b6 b7].
  unfold spread, overlay. cbn.
  by destruct b1, b2, b3, b4, b5, b6, b7.
Qed.

Lemma saveSettings_stored (p : PartialSettings) (b : Chrome) :
  stored_after (saveSettings p) b =
  {| settings := Some (all_settings (spread (settings_of b) p));
     schedules := schedules b; logs := logs b; clock := clock b |}.
Proof. reflexivity. Qed.

(** X1: saveSettings merges: what getSettings returns afterwards is what it
    returned before, overridden by the fields the partial object has;
    schedules and logs are not touched. *)
Theorem saveSettings_merges (p : PartialSettings) (b : Chrome) (v : Vars) :
  outcome (exec chrome_storage getSettings b v) = inr (settings_of b) /\
  outcome (exec chrome_storage getSettings (stored_after (saveSettings p) b) v)
    = inr (spread (settings_of b) p) /\
  schedules (stored_after (saveSettings p) b) = schedules b /\
  logs (stored_after (saveSettings p) b) = logs b.
Proof.
  rewrite saveSettings_stored. split; [reflexivity|]. split; [|done].
  cbn. by rewrite spread_all.
Qed.

(** X2: Two saves in a row are one save of the second partial object laid over
    the first; in particular saving the same fields twice changes nothing
    more. *)
Theorem saveSettings_composes (p1 p2 : PartialSettings) (b : Chrome) :
  stored_after (saveSettings p2) (stored_after (saveSettings p1) b)
    = stored_after (saveSettings (overlay p1 p2)) b /\
  stored_after (saveSettings p1) (stored_after (saveSettings p1) b)
    = stored_after (saveSettings p1) b.
Proof.
  rewrite !saveSettings_stored. cbn [settings schedules logs clock].
  assert (H : forall q,
             settings_of
               {| settings := Some (all_settings (spread (settings_of b) q));
                  schedules := schedules b; logs := logs b; clock := clock b |}
             = spread (settings_of b) q).
  { intros q. unfold settings_of at 1. cbn. apply spread_all. }
  split.
  - rewrite H, spread_overlay. reflexivity.
  - rewrite H, spread_overlay. do 3 f_equal.
    destruct p1 as [a1 a2 a3 a4 a5 a6 a7]. unfold overlay. cbn.
    by destruct a1, a2, a3, a4, a5, a6, a7.
Qed.

(** ** Schedules *)

Lemma upsert_list (s : Schedule) (b : Chrome) :
  schedules_of (stored_after (upsertSchedule s) b) =
  match findIndex (id s) (schedules_of b) with
  | Some idx => <[idx := s]> (schedules_of b)
  | None => (schedules_of b ++ [s])%list
  end.
Proof. by rewrite upsertSchedule_stored. Qed.

Lemma findIndex_Some (k : string) (l : list Schedule) (i : nat) :
  findIndex k l = Some i <->
  exists x, l !! i = Some x /\ id x = k /\
            forall j y, l !! j = Some y -> j < i -> id y <> k.
Proof.
  unfold findIndex. split.
  - destruct (list_find _ l) as [[j x]|] eqn:Hf; [|discriminate].
    cbn. intros [= <-]. apply list_find_Some in Hf. by exists x.
  - intros (x & Hx).
    apply (proj2 (list_find_Some (fun s => id s = k) l i x)) in Hx. by rewrite Hx.
Qed.

Lemma findIndex_None (k : string) (l : list Schedule) :
  findIndex k l = None <-> forall x, x ∈ l -> id x <> k.
Proof.
  unfold findIndex. split.
  - destruct (list_find _ l) as [[j x]|] eqn:Hf; [discriminate|].
    intros _. apply list_find_None in Hf. by rewrite Forall_forall in Hf.
  - intros H. destruct (list_find _ l) as [[j x]|] eqn:Hf; [|done].
    apply list_find_Some in Hf as (Hj & Hid & _).
    destruct (H x); [by eapply list_elem_of_lookup_2 | done].
Qed.

(** X3: After upsertSchedule the first entry found under the schedule's id is
    the schedule itself, and upserting it once more changes nothing. *)
Theorem upsertSchedule_found_and_idempotent (s : Schedule) (b : Chrome) :
  let b' := stored_after (upsertSchedule s) b in
  (exists i : nat,
      findIndex (id s) (schedules_of b') = Some i /\
      schedules_of b' !! i = Some s) /\
  stored_after (upsertSchedule s) b' = b'.
Proof.
  intros b'.
  assert (Hfound : exists i : nat,
             findIndex (id s) (schedules_of b') = Some i /\
             schedules_of b' !! i = Some s).
  { unfold b'. rewrite upsert_list.
    destruct (findIndex (id s) (schedules_of b)) as [i|] eqn:Hf.
    - apply findIndex_Some in Hf as (x & Hx & Hid & Hbefore).
      assert (Hi : i < length (schedules_of b)) by by eapply lookup_lt_Some.
      exists i. split; [|by apply list_lookup_insert_eq].
      apply findIndex_Some. exists s. split; [by apply list_lookup_insert_eq|].
      split; [done|]. intros j y Hy Hj.
      rewrite list_lookup_insert_ne in Hy by lia. by eapply Hbefore.
    - rewrite findIndex_None in Hf.
      exists (length (schedules_of b)). split.
      + apply findIndex_Some. exists s. split; [by apply list_lookup_middle|].
        split; [done|]. intros j y Hy Hj. rewrite lookup_app_l in Hy by done.
        apply Hf. by eapply list_elem_of_lookup_2.
      + by apply list_lookup_middle. }
  split; [exact Hfound|].
  destruct Hfound as (i & Hi & Hs).
  rewrite upsertSchedule_stored. cbv zeta.
  change (default [] (schedules b')) with (schedules_of b').
  rewrite Hi, list_insert_id by done.
  unfold b', schedules_of. rewrite !upsertSchedule_stored. reflexivity.
Qed.

(** X4: upsertSchedule keeps the identifiers of the stored schedules distinct. *)
Theorem upsertSchedule_keeps_ids_distinct (s : Schedule) (b : Chrome) :
  NoDup (id <$> schedules_of b) ->
  NoDup (id <$> schedules_of (stored_after (upsertSchedule s) b)).
Proof.
  intros Hnd. rewrite upsert_list.
  destruct (findIndex (id s) (schedules_of b)) as [i|] eqn:Hf.
  - apply findIndex_Some in Hf as (x & Hx & Hid & _).
    rewrite list_fmap_insert, list_insert_id; [done|].
    by rewrite list_lookup_fmap, Hx, <- Hid.
  - rewrite findIndex_None in Hf. rewrite fmap_app. cbn.
    apply NoDup_app. split; [done|]. split; [|apply NoDup_singleton].
    intros k Hk Hk'. apply list_elem_of_singleton in Hk'. subst k.
    apply list_elem_of_fmap in Hk as (y & Hy & Hin). by apply (Hf y).
Qed.

Lemma upsertSchedule_keeps_ids_distinct_witness :
  let s := Build_Schedule "a" "07:00" "08:00" 7074000 "USB" true daily true in
  let b := {| settings := None; schedules := Some [s]; logs := None; clock := [] |} in
  NoDup (id <$> schedules_of b) /\
  NoDup (id <$> schedules_of (stored_after (upsertSchedule s) b)).
Proof.
  intros s b.
  assert (H : NoDup (id <$> schedules_of b)).
  { cbn. apply NoDup_singleton. }
  split; [exact H|]. exact (upsertSchedule_keeps_ids_distinct s b H).
Defined.

Lemma delete_list (k : string) (b : Chrome) :
  schedules_of (stored_after (deleteSchedule k) b) =
  filter (fun s => id s ≠ k) (schedules_of b).
Proof. reflexivity. Qed.

(** X5: deleteSchedule removes every entry with the given id and nothing
    else: the other entries stay, in their order; with no such entry the
    list is unchanged; settings and logs are not touched. *)
Theorem deleteSchedule_removes_only_that_id (k : string) (b : Chrome) :
  let b' := stored_after (deleteSchedule k) b in
  (forall x, x ∈ schedules_of b' <-> x ∈ schedules_of b /\ id x <> k) /\
  sublist (schedules_of b') (schedules_of b) /\
  findIndex k (schedules_of b') = None /\
  (findIndex k (schedules_of b) = None -> schedules_of b' = schedules_of b) /\
  settings b' = settings b /\ logs b' = logs b.
Proof.
  intros b'. unfold b'. rewrite delete_list.
  split; [|split; [|split; [|split; [|done]]]].
  - intros x. rewrite list_elem_of_filter. tauto.
  - apply sublist_filter.
  - apply findIndex_None. intros x Hx. by apply list_elem_of_filter in Hx as [Hx _].
  - intros Hnone. rewrite findIndex_None in Hnone.
    induction (schedules_of b) as [|x l IH]; [done|].
    rewrite filter_cons, decide_True by (apply Hnone; by left).
    f_equal. apply IH. intros y Hy. apply Hnone. by right.
Qed.

(** X6: Adding a schedule under an id that is not stored and deleting that id
    again gives back the stored list. *)
Theorem upsert_then_delete_restores (s : Schedule) (b : Chrome) :
  findIndex (id s) (schedules_of b) = None ->
  schedules_of (stored_after (deleteSchedule (id s)) (stored_after (upsertSchedule s) b))
  = schedules_of b.
Proof.
  intros Hnone. rewrite delete_list, upsert_list, Hnone.
  rewrite findIndex_None in Hnone.
  rewrite filter_app, filter_cons, decide_False, filter_nil, app_nil_r by (intros H; by apply H).
  induction (schedules_of b) as [|x l IH]; [done|].
  rewrite filter_cons, decide_True by (apply Hnone; by left).
  f_equal. apply IH. intros y Hy. apply Hnone. by right.
Qed.

Lemma upsert_then_delete_restores_witness :
  let s := Build_Schedule "b" "23:30" "00:15" 145500000 "FM" false once true in
  let b := {| settings := None; schedules := None; logs := None; clock := [] |} in
  findIndex (id s) (schedules_of b) = None /\
  schedules_of (stored_after (deleteSchedule (id s)) (stored_after (upsertSchedule s) b))
  = schedules_of b.
Proof.
  intros s b. split; [reflexivity|].
  exact (upsert_then_delete_restores s b eq_refl).
Defined.

(** ** The log *)

Lemma entries_length (calls : list LogCall) (clk : list Z) :
  length (entries calls clk) = length calls.
Proof.
  revert clk. induction calls as [|c calls IH]; intros clk; [done|].
  cbn. by rewrite IH.
Qed.

Lemma addLogs_frame (calls : list LogCall) (b : Chrome) :
  settings (addLogs calls b) = settings b /\
  schedules (addLogs calls b) = schedules b.
Proof.
  revert b. induction calls as [|c calls IH]; intros b; [done|].
  change (addLogs (c :: calls) b)
    with (addLogs calls (stored_after (addLog (lc_level c) (lc_message c) (lc_data c)) b)).
  destruct (IH (stored_after (addLog (lc_level c) (lc_message c) (lc_data c)) b))
    as [-> ->].
  by rewrite addLog_stored.
Qed.

(** X7: The stored log has min(200, calls + old length) entries after one or
    more addLog calls; after clearLogs it is empty, and then holds exactly
    the entries added since, newest first, up to 200.  Neither function
    touches settings or schedules. *)
Theorem log_length_and_clear (b : Chrome) (c : LogCall) (calls : list LogCall) :
  length (logs_of (addLogs (c :: calls) b))
    = Nat.min 200 (S (length calls) + length (logs_of b)) /\
  logs_of (stored_after clearLogs b) = [] /\
  logs_of (addLogs (c :: calls) (stored_after clearLogs b))
    = take 200 (rev (entries (c :: calls) (clock b))) /\
  settings (addLogs (c :: calls) (stored_after clearLogs b)) = settings b /\
  schedules (addLogs (c :: calls) (stored_after clearLogs b)) = schedules b.
Proof.
  split; [|split; [done|split; [|split]]].
  - unfold logs_of at 1. rewrite addLogs_stored. cbn [default from_option Datatypes.id].
    rewrite length_take, length_app, length_rev, entries_length. cbn [length].
    unfold MAX_LOGS, logs_of. lia.
  - unfold logs_of. rewrite addLogs_stored. cbn [default from_option Datatypes.id].
    change (clock (stored_after clearLogs b)) with (clock b).
    change (logs (stored_after clearLogs b)) with (Some (@nil LogEntry)).
    cbn [default from_option Datatypes.id]. by rewrite app_nil_r.
  - by rewrite (proj1 (addLogs_frame _ _)).
  - by rewrite (proj2 (addLogs_frame _ _)).
Qed.

Lemma newest_first_take (n : nat) (l : list LogEntry) :
  newest_first l -> newest_first (take n l).
Proof.
  revert n. induction l as [|a l IH]; intros n H; [by destruct n|].
  destruct n as [|n]; [done|]. cbn [take].
  destruct l as [|x l]; [by destruct n|].
  destruct H as [Hle H]. specialize (IH n H).
  destruct n as [|n]; [done|]. split; [done|]. exact IH.
Qed.

Lemma newest_first_entries (calls : list LogCall) (clk : list Z) (old : list LogEntry) :
  ascending clk -> length calls <= length clk -> newest_first old ->
  (calls <> [] -> forall x, x ∈ old -> (timestamp x <= hd 0 clk)%Z) ->
  newest_first (rev (entries calls clk) ++ old).
Proof.
  revert clk old. induction calls as [|c calls IH]; intros clk old Hasc Hlen Hold Hle;
    [done|].
  destruct clk as [|t clk]; [cbn in Hlen; lia|].
  cbn [entries rev hd tail]. rewrite <- app_assoc. cbn [app].
  apply IH.
  - destruct clk; [done|]. by destruct Hasc.
  - cbn in Hlen. lia.
  - destruct old as [|x old]; [done|]. split; [|done].
    apply (Hle ltac:(done)). by left.
  - intros Hne x Hx. destruct clk as [|t' clk].
    { destruct calls; [done | cbn in Hlen; lia]. }
    destruct Hasc as [Htt _]. cbn [hd].
    apply elem_of_cons in Hx as [-> | Hx]; [done|].
    specialize (Hle ltac:(done) x Hx). cbn in Hle. lia.
Qed.

(** X8: With a clock that does not go back and is not behind the stored
    entries, the stored log stays sorted by time, newest first. *)
Theorem log_stays_newest_first (b : Chrome) (c : LogCall) (calls : list LogCall) :
  ascending (clock b) ->
  S (length calls) <= length (clock b) ->
  newest_first (logs_of b) ->
  (forall x, x ∈ logs_of b -> (timestamp x <= hd 0 (clock b))%Z) ->
  newest_first (logs_of (addLogs (c :: calls) b)).
Proof.
  intros Hasc Hlen Hold Hle. unfold logs_of at 1.
  rewrite addLogs_stored. cbn [default from_option Datatypes.id].
  apply newest_first_take, newest_first_entries; try done.
Qed.

Lemma log_stays_newest_first_witness :
  let old := [{| timestamp := 5; level := INFO; message := "old"; data := None |}] in
  let b := {| settings := None; schedules := None; logs := Some old;
              clock := [7; 7; 9]%Z |} in
  let calls := [Build_LogCall INFO "a" None; Build_LogCall WARN "b" None;
                Build_LogCall ERROR "c" None] in
  ascending (clock b) /\
  newest_first (logs_of b) /\
  newest_first (logs_of (addLogs calls b)).
Proof.
  intros old b calls.
  assert (Hasc : ascending (clock b)) by (cbn; lia).
  assert (Hold : newest_first (logs_of b)) by exact I.
  split; [exact Hasc|]. split; [exact Hold|].
  apply (log_stays_newest_first b (Build_LogCall INFO "a" None)
           [Build_LogCall WARN "b" None; Build_LogCall ERROR "c" None] Hasc).
  - cbn. lia.
  - exact Hold.
  - intros x Hx. apply list_elem_of_singleton in Hx. subst x. cbn. lia.
Defined.

(** ** computeDurationMin *)

(** X9: Outside equal times, the duration from start to end and the duration
    from end to start add up to one day. *)
Theorem computeDurationMin_complement (h1 m1 h2 m2 : Z) :
  time_of_day h1 m1 -> time_of_day h2 m2 -> minutes h1 m1 <> minutes h2 m2 ->
  exists d d' : Z,
    computeDurationMin (HHMM h1 m1) (HHMM h2 m2) = Some d /\
    computeDurationMin (HHMM h2 m2) (HHMM h1 m1) = Some d' /\
    (d + d' = 1440)%Z.
Proof.
  intros H1 H2 Hne.
  rewrite (computeDurationMin_HHMM _ _ _ _ H1 H2), (computeDurationMin_HHMM _ _ _ _ H2 H1).
  do 2 eexists. split; [reflexivity|]. split; [reflexivity|].
  cbv zeta. unfold minutes in *.
  destruct (Z.leb_spec (h2 * 60 + m2 - (h1 * 60 + m1)) 0),
           (Z.leb_spec (h1 * 60 + m1 - (h2 * 60 + m2)) 0); lia.
Qed.

Lemma computeDurationMin_complement_witness :
  time_of_day 23 30 /\ time_of_day 0 15 /\ minutes 23 30 <> minutes 0 15 /\
  exists d d' : Z,
    computeDurationMin (HHMM 23 30) (HHMM 0 15) = Some d /\
    computeDurationMin (HHMM 0 15) (HHMM 23 30) = Some d' /\
    (d + d' = 1440)%Z.
Proof.
  assert (H1 : time_of_day 23 30) by (unfold time_of_day; lia).
  assert (H2 : time_of_day 0 15) by (unfold time_of_day; lia).
  assert (H3 : minutes 23 30 <> minutes 0 15) by (unfold minutes; lia).
  split; [exact H1|]. split; [exact H2|]. split; [exact H3|].
  exact (computeDurationMin_complement 23 30 0 15 H1 H2 H3).
Defined.

Lemma split_lacks (c : ascii) (s : string) : lacks c s -> JS.split c s = [s].
Proof.
  induction s as [|d s IH]; [done|]. intros [Hd Hs]. cbn.
  destruct (Ascii.eqb_spec d c) as [->|_]; [done|]. by rewrite (IH Hs).
Qed.

(** X10: A time without a colon has no minutes field: the duration is NaN,
    whichever argument it is. *)
Theorem computeDurationMin_without_colon (s t : string) :
  lacks ":" s ->
  computeDurationMin s t = None /\ computeDurationMin t s = None.
Proof.
  intros Hs. unfold computeDurationMin.
  rewrite (split_lacks ":" s Hs). cbn [fmap list_fmap lookup list_lookup].
  split.
  - cbn. by destruct (JS.Number s).
  - cbn. destruct (mjoin (_ !! 0%nat)); [|done]. cbn.
    destruct (mjoin (_ !! 1%nat)); [|done]. cbn.
    by destruct (JS.Number s).
Qed.

Lemma computeDurationMin_without_colon_witness :
  lacks ":" "0730" /\
  computeDurationMin "0730" "08:00" = None /\ computeDurationMin "08:00" "0730" = None.
Proof.
  assert (H : lacks ":" "0730") by (cbn; repeat split; discriminate).
  split; [exact H|]. exact (computeDurationMin_without_colon "0730" "08:00" H).
Defined.

(** ** buildWsUrl *)

(** X11: The URL does not depend on whether the configured path has its leading
    slash, and always starts with the ws scheme. *)
Theorem buildWsUrl_leading_slash (s : Settings) (path : string) :
  JS.startsWith "/" path = false ->
  buildWsUrl (with_wsPath path s) = buildWsUrl (with_wsPath ("/" +:+ path) s) /\
  buildWsUrl (with_wsPath path s)
    = "ws://" +:+ wsHost s +:+ ":" +:+ JS.String_of_Z (wsPort s) +:+ "/" +:+ path /\
  String.prefix "ws://" (buildWsUrl (with_wsPath path s)) = true.
Proof.
  intros Hp. unfold buildWsUrl, with_wsPath. cbn [wsPath wsHost wsPort].
  rewrite Hp.
  assert (Hslash : JS.startsWith "/" ("/" +:+ path) = true).
  { unfold JS.startsWith. cbn. destruct (ascii_dec "/" "/"); [|done]. by destruct path. }
  rewrite Hslash. repeat split.
  cbn. repeat (destruct (ascii_dec _ _); [|done]). by destruct (wsHost s +:+ _).
Qed.

Lemma buildWsUrl_leading_slash_witness :
  JS.startsWith "/" "ws" = false /\
  buildWsUrl (with_wsPath "ws" DEFAULT_SETTINGS) = "ws://127.0.0.1:17800/ws" /\
  buildWsUrl (with_wsPath "ws" DEFAULT_SETTINGS)
    = buildWsUrl (with_wsPath "/ws" DEFAULT_SETTINGS).
Proof.
  split; [reflexivity|]. split; [reflexivity|].
  exact (proj1 (buildWsUrl_leading_slash DEFAULT_SETTINGS "ws" eq_refl)).
Defined.

(** ** buildFilename *)

Lemma lacks_app (c : ascii) (a b : string) :
  lacks c (a +:+ b) <-> lacks c a /\ lacks c b.
Proof.
  induction a as [|d a IH]; [cbn; tauto|].
  rewrite append_cons. cbn [lacks]. rewrite IH. tauto.
Qed.

Lemma lacks_uint (c : ascii) (d : Decimal.uint) :
  JS.digit_of c = None -> lacks c (NilEmpty.string_of_uint d).
Proof.
  intros Hc. induction d; cbn [NilEmpty.string_of_uint lacks]; try done;
    (split; [intros <-; discriminate Hc | done]).
Qed.

Lemma lacks_String_of_Z (c : ascii) (n : Z) :
  JS.digit_of c = None -> c <> "-"%char -> lacks c (JS.String_of_Z n).
Proof.
  intros Hc Hm. unfold JS.String_of_Z, NilZero.string_of_int.
  destruct (Z.to_int n) as [d|d].
  - unfold NilZero.string_of_uint.
    destruct d; try (by apply lacks_uint).
    cbn. split; [intros <-; discriminate Hc | done].
  - cbn [lacks]. split; [done|].
    unfold NilZero.string_of_uint.
    destruct d; try (by apply lacks_uint).
    cbn. split; [intros <-; discriminate Hc | done].
Qed.

Lemma lacks_repeat (c d : ascii) (n : nat) : d <> c -> lacks c (JS.repeat_char d n).
Proof. intros Hd. induction n; cbn; [done | by split]. Qed.

Lemma lacks_pad (c : ascii) (n : Z) :
  JS.digit_of c = None -> c <> "-"%char -> lacks c (pad n).
Proof.
  intros Hc Hm. unfold pad, JS.padStart. apply lacks_app. split.
  - apply lacks_repeat. intros <-. discriminate Hc.
  - by apply lacks_String_of_Z.
Qed.

Lemma lacks_date_text (c : ascii) (d : Date) :
  JS.digit_of c = None -> c <> "-"%char -> lacks c (date_text d).
Proof.
  intros Hc Hm. unfold date_text. rewrite !lacks_app.
  split; [by apply lacks_String_of_Z|]. split; by apply lacks_pad.
Qed.

Lemma lacks_time_text (c : ascii) (d : Date) :
  JS.digit_of c = None -> c <> "-"%char -> lacks c (time_text d).
Proof.
  intros Hc Hm. unfold time_text. rewrite !lacks_app.
  split; [by apply lacks_pad|]. split; by apply lacks_pad.
Qed.

Lemma getSubstitution_cons_plain (m b a : string) (c : ascii) (r : string) :
  c <> "$"%char ->
  JS.getSubstitution m b a (String c r) = String c (JS.getSubstitution m b a r).
Proof.
  intros Hc.
  destruct c as [[] [] [] [] [] [] [] []]; try reflexivity.
  by destruct Hc.
Qed.

Lemma getSubstitution_plain (m b a rep : string) :
  lacks "$" rep -> JS.getSubstitution m b a rep = rep.
Proof.
  induction rep as [|c r IH]; [done|]. intros [Hc Hr].
  rewrite getSubstitution_cons_plain by done. by rewrite IH.
Qed.

Lemma indexOf_skip (p' x y : string) :
  lacks "{" x ->
  JS.indexOf (String "{" p') (x +:+ y)
  = (fun i => String.length x + i) <$> JS.indexOf (String "{" p') y.
Proof.
  intros Hx. induction x as [|d x IH].
  - rewrite append_nil_l. by destruct (JS.indexOf _ y).
  - destruct Hx as [Hd Hx]. rewrite append_cons. cbn [JS.indexOf].
    rewrite prefix_cons. destruct (ascii_dec "{" d) as [<-|_]; [done|].
    rewrite (IH Hx). by destruct (JS.indexOf _ y).
Qed.

Lemma take_skip (x y : string) (i : nat) :
  JS.string_take (String.length x + i) (x +:+ y) = x +:+ JS.string_take i y.
Proof.
  induction x as [|d x IH]; [done|].
  rewrite !append_cons. cbn [String.length Nat.add JS.string_take]. by rewrite IH.
Qed.

Lemma drop_skip (x y : string) (i : nat) :
  JS.string_drop (String.length x + i) (x +:+ y) = JS.string_drop i y.
Proof.
  induction x as [|d x IH]; [done|].
  rewrite append_cons. cbn [String.length Nat.add JS.string_drop]. by rewrite IH.
Qed.

(** A replacement looks past a text that has no opening brace. *)
Lemma replace_skip (p' rep x y : string) :
  lacks "{" x -> lacks "$" rep ->
  JS.replace (String "{" p') rep (x +:+ y) = x +:+ JS.replace (String "{" p') rep y.
Proof.
  intros Hx Hrep. unfold JS.replace. rewrite (indexOf_skip p' x y Hx).
  destruct (JS.indexOf (String "{" p') y) as [i|]; [|done].
  cbn [fmap option_fmap option_map]. cbv zeta.
  rewrite !getSubstitution_plain by done.
  rewrite <- Nat.add_assoc, take_skip, drop_skip. by rewrite append_assoc.
Qed.

Lemma replace_here (pat rep s : string) :
  String.prefix pat s = true -> lacks "$" rep ->
  JS.replace pat rep s = rep +:+ JS.string_drop (String.length pat) s.
Proof.
  intros Hp Hrep. unfold JS.replace.
  assert (Hi : JS.indexOf pat s = Some 0).
  { destruct s; cbn [JS.indexOf]; by rewrite Hp. }
  rewrite Hi. cbv zeta. rewrite getSubstitution_plain by done.
  by destruct s.
Qed.

Lemma replace_absent (p' rep s : string) :
  lacks "{" s -> JS.replace (String "{" p') rep s = s.
Proof.
  intros Hs. unfold JS.replace.
  pose proof (indexOf_skip p' s "" Hs) as H.
  assert (Hs' : s +:+ "" = s).
  { clear. induction s as [|c s IH]; [done|]. rewrite append_cons. by rewrite IH. }
  rewrite Hs' in H. rewrite H. cbn [JS.indexOf].
  by destruct p'.
Qed.

(** X12: With the default template, and a mode without a dollar sign, the file
    name is date, time, frequency and mode joined by underscores, for every
    date, frequency and mode. *)
Theorem fill_default_template (freq : Z) (mode : string) (d : Date) :
  lacks "$" mode ->
  fill_template (filenameTemplate DEFAULT_SETTINGS) freq mode d
  = date_text d +:+ "_" +:+ time_text d +:+ "_" +:+ JS.String_of_Z freq +:+ "_" +:+ mode.
Proof.
  intros Hmode. unfold fill_template. cbn [filenameTemplate DEFAULT_SETTINGS].
  assert (Hb : JS.digit_of "{" = None) by reflexivity.
  assert (Hd : JS.digit_of "$" = None) by reflexivity.
  assert (Hu : lacks "{" "_") by (split; [discriminate | done]).
  rewrite (replace_here "{date}" (date_text d) "{date}_{time}_{freq}_{mode}")
    by (try reflexivity; by apply lacks_date_text).
  change (JS.string_drop (String.length "{date}") "{date}_{time}_{freq}_{mode}")
    with ("_" +:+ "{time}_{freq}_{mode}").
  rewrite (replace_skip "time}" _ (date_text d))
    by (first [by apply lacks_date_text | by apply lacks_time_text]).
  rewrite (replace_skip "time}" _ "_") by (first [done | by apply lacks_time_text]).
  rewrite (replace_here "{time}" (time_text d) "{time}_{freq}_{mode}")
    by (try reflexivity; by apply lacks_time_text).
  change (JS.string_drop (String.length "{time}") "{time}_{freq}_{mode}")
    with ("_" +:+ "{freq}_{mode}").
  rewrite (replace_skip "freq}" _ (date_text d))
    by (first [by apply lacks_date_text | by apply lacks_String_of_Z]).
  rewrite (replace_skip "freq}" _ "_") by (first [done | by apply lacks_String_of_Z]).
  rewrite (replace_skip "freq}" _ (time_text d))
    by (first [by apply lacks_time_text | by apply lacks_String_of_Z]).
  rewrite (replace_skip "freq}" _ "_") by (first [done | by apply lacks_String_of_Z]).
  rewrite (replace_here "{freq}" (JS.String_of_Z freq) "{freq}_{mode}")
    by (try reflexivity; by apply lacks_String_of_Z).
  change (JS.string_drop (String.length "{freq}") "{freq}_{mode}")
    with ("_" +:+ "{mode}").
  rewrite (replace_skip "mode}" _ (date_text d))
    by (first [by apply lacks_date_text | done]).
  rewrite (replace_skip "mode}" _ "_") by done.
  rewrite (replace_skip "mode}" _ (time_text d))
    by (first [by apply lacks_time_text | done]).
  rewrite (replace_skip "mode}" _ "_") by done.
  rewrite (replace_skip "mode}" _ (JS.String_of_Z freq))
    by (first [by apply lacks_String_of_Z | done]).
  rewrite (replace_skip "mode}" _ "_") by done.
  rewrite (replace_here "{mode}" mode "{mode}") by done.
  cbn [String.length JS.string_drop].
  assert (Hnil : mode +:+ "" = mode).
  { clear. induction mode as [|c s IH]; [done|]. rewrite append_cons. by rewrite IH. }
  by rewrite Hnil.
Qed.

Lemma fill_default_template_witness :
  lacks "$" "FM" /\
  fill_template (filenameTemplate DEFAULT_SETTINGS) 145500000 "FM"
    (Build_Date 2026 1 21 7 0 0)
  = "20260221_070000_145500000_FM".
Proof.
  assert (H : lacks "$" "FM") by (cbn; repeat split; discriminate).
  split; [exact H|].
  exact (fill_default_template 145500000 "FM" (Build_Date 2026 1 21 7 0 0) H).
Defined.

(** X13: A template without an opening brace is the file name itself, whatever
    the frequency, the mode and the date. *)
Theorem fill_template_without_placeholder (template : string) (freq : Z)
    (mode : string) (d : Date) :
  lacks "{" template -> fill_template template freq mode d = template.
Proof.
  intros Ht. unfold fill_template.
  by rewrite (replace_absent "date}"), (replace_absent "time}"),
     (replace_absent "freq}"), (replace_absent "mode}").
Qed.

Lemma fill_template_without_placeholder_witness :
  lacks "{" "recording" /\
  fill_template "recording" 7074000 "$&" (Build_Date 2026 1 21 7 0 0) = "recording".
Proof.
  assert (H : lacks "{" "recording") by (cbn; repeat split; discriminate).
  split; [exact H|].
  exact (fill_template_without_placeholder "recording" 7074000 "$&"
           (Build_Date 2026 1 21 7 0 0) H).
Defined.

End MoreStorageFacts.

(* ================================================================== *)
(** * Further facts about the command channel *)
(* ================================================================== *)

Section MoreChannelFacts.
Import Types WsClient ChannelSpec.

(** X14: sendCommand on a client that is not connected rejects at once and
    leaves the client as it was: nothing is sent, no listener is
    registered, no timeout is armed. *)
Theorem sendCommand_not_connected (rt : Runtime) (cmd : WsCommand)
    (expected : string) (ms : Z) :
  well_formed rt -> isConnected (client rt) = false ->
  let rt' := fst (sendCommand cmd expected ms rt) in
  let c := snd (sendCommand cmd expected ms rt) in
  outcome_of c rt' = Some (Rejected (ErrorObj "WebSocket is not connected")) /\
  client rt' = client rt /\ timers rt' = timers rt /\ ops rt' = ops rt.
Proof.
  intros Hwf Hc rt' c.
  destruct (Hwf (next rt) ltac:(lia)) as (_ & _ & Hnone).
  unfold rt', c, sendCommand. cbn.
  assert (Hsettle : forall rt0 : Runtime,
             settled rt0 = settled rt ->
             outcome_of (next rt)
               (settle (next rt) (Rejected (ErrorObj "WebSocket is not connected")) rt0)
             = Some (Rejected (ErrorObj "WebSocket is not connected")) /\
             client (settle (next rt)
                       (Rejected (ErrorObj "WebSocket is not connected")) rt0)
             = client rt0 /\
             timers (settle (next rt)
                       (Rejected (ErrorObj "WebSocket is not connected")) rt0)
             = timers rt0 /\
             ops (settle (next rt)
                    (Rejected (ErrorObj "WebSocket is not connected")) rt0)
             = ops rt0).
  { intros rt0 Hs. unfold settle, outcome_of in *. rewrite Hs, Hnone. cbn.
    by rewrite decide_True. }
  set (rt0 := {| client := client rt; timers := timers rt; settled := settled rt;
                 ops := ops rt; next := S (next rt) |}).
  destruct (Hsettle rt0 eq_refl) as (H1 & H2 & H3 & H4).
  destruct (ws (client rt)) as [sock|] eqn:Hw; cbn.
  - unfold isConnected in Hc |- *. cbn. rewrite Hw in Hc |- *. rewrite Hc. cbn.
    by rewrite H1, H2, H3, H4.
  - by rewrite H1, H2, H3, H4.
Qed.

Lemma sendCommand_not_connected_witness :
  well_formed fresh /\ isConnected (client fresh) = false /\
  outcome_of 0 (fst (sendCommand (SetFreq 0 7074000) "setFreqResult" 5000 fresh))
    = Some (Rejected (ErrorObj "WebSocket is not connected")).
Proof.
  assert (Hwf : well_formed fresh) by (intros c _; done).
  split; [exact Hwf|]. split; [reflexivity|].
  exact (proj1 (sendCommand_not_connected fresh (SetFreq 0 7074000) "setFreqResult"
                  5000 Hwf eq_refl)).
Defined.

(** X15: A frame that does not parse, or whose type tag no registered listener
    expects, changes nothing; after disconnect() every frame is ignored. *)
Theorem unmatched_frame_ignored (rt : Runtime) (parsed : option JValue) :
  (forall data l, parsed = Some data -> l ∈ messageListeners (client rt) ->
                  matches (expectedType l) data = false) ->
  on_message parsed rt = rt /\
  on_message parsed (disconnect rt) = disconnect rt.
Proof.
  intros Hno. split.
  - unfold on_message. destruct (ws (client rt)) as [sock|]; [|done].
    destruct (onmessage sock); [|done]. destruct parsed as [data|]; [|reflexivity].
    apply (dispatch_invariant (fun rt' => rt' = rt)); [|reflexivity].
    intros l rt' Hl ->. unfold listener. by rewrite (Hno data l).
  - unfold on_message.
    assert (Hw : ws (client (disconnect rt)) = None).
    { destruct rt as [[[sock|] ls] ts st os n]; [|done].
      by destruct sock as [u [] oo oc oe om]. }
    by rewrite Hw.
Qed.

Lemma unmatched_frame_ignored_witness :
  let rt := fst (sendCommand (SetFreq 0 7074000) "setFreqResult" 5000 demo_channel) in
  let frame := Some (JObj [("type", JStr "hello")]) in
  on_message frame rt = rt.
Proof.
  intros rt frame.
  refine (proj1 (unmatched_frame_ignored rt frame _)).
  intros data l [= <-] Hl.
  apply list_elem_of_singleton in Hl. by subst l.
Defined.

(** X16: Two calls in flight that expect the same type tag are both resolved by
    the first frame with that tag, and both are cleaned up. *)
Theorem same_tag_calls_share_a_frame (rt : Runtime) (cmd1 cmd2 : WsCommand)
    (expected : string) (ms1 ms2 : Z) (data : JValue) :
  well_formed rt -> listening rt -> matches expected data = true ->
  let rt1 := fst (sendCommand cmd1 expected ms1 rt) in
  let c1 := snd (sendCommand cmd1 expected ms1 rt) in
  let rt2 := fst (sendCommand cmd2 expected ms2 rt1) in
  let c2 := snd (sendCommand cmd2 expected ms2 rt1) in
  let rt3 := on_message (Some data) rt2 in
  c1 <> c2 /\
  outcome_of c1 rt3 = Some (Resolved data) /\
  outcome_of c2 rt3 = Some (Resolved data) /\
  mine c1 rt3 = [] /\ mine c2 rt3 = [] /\ armed c1 rt3 = [] /\ armed c2 rt3 = [].
Proof.
  intros Hwf Hl Hm rt1 c1 rt2 c2 rt3.
  destruct (sendCommand_attached cmd1 expected ms1 rt Hwf Hl) as [Hatt1 _].
  fold rt1 c1 in Hatt1.
  assert (Hwf1 : well_formed rt1).
  { apply (well_formed_stable (CallSendCommand cmd1 expected ms1) rt Hwf). }
  assert (Hl1 : listening rt1) by apply Hatt1.
  destruct (sendCommand_attached cmd2 expected ms2 rt1 Hwf1 Hl1) as [Hatt2 _].
  fold rt2 c2 in Hatt2.
  assert (Hatt1' : attached c1 expected ms1 rt2).
  { apply (attached_calm c1 expected ms1 (CallSendCommand cmd2 expected ms2) rt1);
      [exact I | exact Hatt1]. }
  assert (Hc1 : c1 = next rt) by apply next_sendCommand.
  assert (Hc2 : c2 = next rt1) by apply next_sendCommand.
  assert (Hn1 : next rt1 = S (next rt)) by apply next_sendCommand.
  pose proof (attached_match c1 expected ms1 data rt2 Hatt1' Hm) as [Hv1 _].
  pose proof (attached_match c2 expected ms2 data rt2 Hatt2 Hm) as [Hv2 _].
  fold rt3 in Hv1, Hv2. unfold view in Hv1, Hv2.
  apply pair_equal_spec in Hv1 as [Hv1 Ha1]. apply pair_equal_spec in Hv1 as [Ho1 Hm1].
  apply pair_equal_spec in Hv2 as [Hv2 Ha2]. apply pair_equal_spec in Hv2 as [Ho2 Hm2].
  split; [lia|]. done.
Qed.

Lemma same_tag_calls_share_a_frame_witness :
  let reply := JObj [("type", JStr "setFreqResult"); ("success", JBool true)] in
  let rt1 := fst (sendCommand (SetFreq 0 7074000) "setFreqResult" 5000 demo_channel) in
  let rt2 := fst (sendCommand (SetFreq 0 14074000) "setFreqResult" 5000 rt1) in
  well_formed demo_channel /\ listening demo_channel /\
  matches "setFreqResult" reply = true /\
  outcome_of 0 (on_message (Some reply) rt2) = Some (Resolved reply) /\
  outcome_of 1 (on_message (Some reply) rt2) = Some (Resolved reply).
Proof.
  intros reply rt1 rt2.
  assert (Hwf : well_formed demo_channel) by (intros c _; done).
  assert (Hl : listening demo_channel) by (eexists; done).
  split; [exact Hwf|]. split; [exact Hl|]. split; [reflexivity|].
  destruct (same_tag_calls_share_a_frame demo_channel (SetFreq 0 7074000)
              (SetFreq 0 14074000) "setFreqResult" 5000 5000 reply Hwf Hl eq_refl)
    as (_ & H1 & H2 & _).
  split; [exact H1 | exact H2].
Defined.

(** X17: Two calls in flight that expect different type tags do not disturb
    each other: a frame for the first resolves it and leaves the second
    pending, with its listener registered and its timeout armed. *)
Theorem different_tag_calls_independent (rt : Runtime) (cmd1 cmd2 : WsCommand)
    (expected1 expected2 : string) (ms1 ms2 : Z) (data : JValue) :
  well_formed rt -> listening rt ->
  matches expected1 data = true -> matches expected2 data = false ->
  let rt1 := fst (sendCommand cmd1 expected1 ms1 rt) in
  let c1 := snd (sendCommand cmd1 expected1 ms1 rt) in
  let rt2 := fst (sendCommand cmd2 expected2 ms2 rt1) in
  let c2 := snd (sendCommand cmd2 expected2 ms2 rt1) in
  let rt3 := on_message (Some data) rt2 in
  outcome_of c1 rt3 = Some (Resolved data) /\
  outcome_of c2 rt3 = None /\
  mine c2 rt3 = [{| lid := c2; expectedType := expected2 |}] /\
  armed c2 rt3 = [{| tid := c2; t_expected := expected2; t_ms := ms2 |}] /\
  outcome_of c2 (on_timeout c2 rt3) = Some (Rejected (timeout_error expected2 ms2)).
Proof.
  intros Hwf Hl Hm1 Hm2 rt1 c1 rt2 c2 rt3.
  destruct (sendCommand_attached cmd1 expected1 ms1 rt Hwf Hl) as [Hatt1 _].
  fold rt1 c1 in Hatt1.
  assert (Hwf1 : well_formed rt1).
  { apply (well_formed_stable (CallSendCommand cmd1 expected1 ms1) rt Hwf). }
  assert (Hl1 : listening rt1) by apply Hatt1.
  destruct (sendCommand_attached cmd2 expected2 ms2 rt1 Hwf1 Hl1) as [Hatt2 _].
  fold rt2 c2 in Hatt2.
  assert (Hatt1' : attached c1 expected1 ms1 rt2).
  { apply (attached_calm c1 expected1 ms1 (CallSendCommand cmd2 expected2 ms2) rt1);
      [exact I | exact Hatt1]. }
  pose proof (attached_match c1 expected1 ms1 data rt2 Hatt1' Hm1) as [Hv1 _].
  fold rt3 in Hv1. unfold view in Hv1.
  apply pair_equal_spec in Hv1 as [Hv1 _]. apply pair_equal_spec in Hv1 as [Ho1 _].
  assert (Hatt2' : attached c2 expected2 ms2 rt3).
  { apply (attached_calm c2 expected2 ms2 (Frame (Some data)) rt2); [exact Hm2 | exact Hatt2]. }
  destruct Hatt2' as ((Ho2 & Ha2 & Hmine & Hlt) & Hm2' & Hl3).
  split; [done|]. split; [done|]. split; [done|]. split; [done|].
  assert (Hfin : finished c2 (Rejected (timeout_error expected2 ms2)) (on_timeout c2 rt3)).
  { apply in_flight_timeout. by repeat split. }
  destruct Hfin as [Hv _]. unfold view in Hv.
  apply pair_equal_spec in Hv as [Hv _]. by apply pair_equal_spec in Hv as [Hv _].
Qed.

Lemma different_tag_calls_independent_witness :
  let reply := JObj [("type", JStr "setFreqResult"); ("success", JBool true)] in
  let rt1 := fst (sendCommand (SetFreq 0 7074000) "setFreqResult" 5000 demo_channel) in
  let rt2 := fst (sendCommand (SetMode 0 "USB" false) "setModeResult" 5000 rt1) in
  well_formed demo_channel /\ listening demo_channel /\
  matches "setFreqResult" reply = true /\ matches "setModeResult" reply = false /\
  outcome_of 0 (on_message (Some reply) rt2) = Some (Resolved reply) /\
  outcome_of 1 (on_message (Some reply) rt2) = None.
Proof.
  intros reply rt1 rt2.
  assert (Hwf : well_formed demo_channel) by (intros c _; done).
  assert (Hl : listening demo_channel) by (eexists; done).
  split; [exact Hwf|]. split; [exact Hl|]. split; [reflexivity|]. split; [reflexivity|].
  destruct (different_tag_calls_independent demo_channel (SetFreq 0 7074000)
              (SetMode 0 "USB" false) "setFreqResult" "setModeResult" 5000 5000 reply
              Hwf Hl eq_refl eq_refl)
    as (H1 & H2 & _).
  split; [exact H1 | exact H2].
Defined.

(** X18: disconnect() does not leave a call in flight pending for ever: frames
    no longer reach it, but its timeout still fires and rejects it. *)
Theorem disconnect_then_timeout_rejects (rt : Runtime) (cmd : WsCommand)
    (expected : string) (ms : Z) (parsed : option JValue) :
  well_formed rt -> listening rt ->
  let rt1 := fst (sendCommand cmd expected ms rt) in
  let c := snd (sendCommand cmd expected ms rt) in
  let rt2 := on_message parsed (disconnect rt1) in
  rt2 = disconnect rt1 /\
  outcome_of c rt2 = None /\
  outcome_of c (on_timeout c rt2) = Some (Rejected (timeout_error expected ms)).
Proof.
  intros Hwf Hl rt1 c rt2.
  destruct (sendCommand_attached cmd expected ms rt Hwf Hl) as [[Hfl _] _].
  fold rt1 c in Hfl.
  assert (Hign : rt2 = disconnect rt1).
  { unfold rt2, on_message.
    assert (Hw : ws (client (disconnect rt1)) = None).
    { destruct rt1 as [[[sock|] ls] ts st os n]; [|done].
      by destruct sock as [u [] oo oc oe om]. }
    by rewrite Hw. }
  split; [exact Hign|]. rewrite Hign.
  assert (Hfl2 : in_flight c expected ms (disconnect rt1)).
  { apply (in_flight_quiet c expected ms CallDisconnect rt1); [exact I | exact Hfl]. }
  split; [apply Hfl2|].
  destruct (in_flight_timeout c expected ms _ Hfl2) as [Hv _]. unfold view in Hv.
  apply pair_equal_spec in Hv as [Hv _]. by apply pair_equal_spec in Hv as [Hv _].
Qed.

Lemma disconnect_then_timeout_rejects_witness :
  let rt1 := fst (sendCommand (SetFreq 0 7074000) "setFreqResult" 5000 demo_channel) in
  well_formed demo_channel /\ listening demo_channel /\
  outcome_of 0 (on_timeout 0 (disconnect rt1))
    = Some (Rejected (timeout_error "setFreqResult" 5000)).
Proof.
  intros rt1.
  assert (Hwf : well_formed demo_channel) by (intros c _; done).
  assert (Hl : listening demo_channel) by (eexists; done).
  split; [exact Hwf|]. split; [exact Hl|].
  destruct (disconnect_then_timeout_rejects demo_channel (SetFreq 0 7074000)
              "setFreqResult" 5000 None Hwf Hl) as (Heq & _ & H).
  rewrite Heq in H. exact H.
Defined.

(** X19: A promise settles once: whatever happens afterwards (frames, timeouts,
    further calls, disconnect), a settled call keeps its outcome. *)
Theorem settled_outcome_is_final (rt : Runtime) (c : nat) (s : Settled)
    (evs : list Event) :
  well_formed rt -> outcome_of c rt = Some s ->
  outcome_of c (run evs rt) = Some s.
Proof.
  intros Hwf Hs. revert rt Hwf Hs.
  induction evs as [|ev evs IH]; intros rt Hwf Hs; [done|].
  cbn. apply IH; [by apply well_formed_stable|].
  assert (Hlt : c < next rt).
  { destruct (decide (c < next rt)) as [|Hge]; [done|].
    destruct (Hwf c ltac:(lia)) as (_ & _ & Hnone). congruence. }
  assert (Hkeep : forall rt', fst (fst (view c rt')) = Some s -> outcome_of c rt' = Some s)
    by done.
  destruct ev as [parsed|j| |a|cmd ex t|]; cbn [handle].
  - unfold on_message. destruct (ws (client rt)) as [sock|]; [|done].
    destruct (onmessage sock); [|done]. destruct parsed as [data|]; [|done].
    apply (dispatch_invariant (fun rt' => outcome_of c rt' = Some s)); [|done].
    intros l rt' _ Hrt'. apply Hkeep. rewrite view_listener.
    case_decide; [|by cbn]. destruct (matches _ _); [|by cbn].
    unfold view, hit. cbn. by rewrite Hrt'.
  - apply Hkeep. rewrite view_on_timeout.
    destruct (list_find _ _) as [[i t']|]; [|by cbn].
    case_decide; [|by cbn]. unfold view, hit. cbn. by rewrite Hs.
  - apply Hkeep. by rewrite view_on_close.
  - done.
  - apply Hkeep. rewrite view_sendCommand_other by lia. by cbn.
  - apply Hkeep. by rewrite view_disconnect.
Qed.

Lemma settled_outcome_is_final_witness :
  let rt := fst (sendCommand (SetFreq 0 7074000) "setFreqResult" 5000 fresh) in
  let reply := JObj [("type", JStr "setFreqResult"); ("success", JBool true)] in
  well_formed rt /\
  outcome_of 0 rt = Some (Rejected (ErrorObj "WebSocket is not connected")) /\
  outcome_of 0 (run [SocketOpened "ws://127.0.0.1:17800/ws"; Frame (Some reply);
                     TimerFired 0; CallDisconnect] rt)
    = Some (Rejected (ErrorObj "WebSocket is not connected")).
Proof.
  intros rt reply.
  assert (Hwf : well_formed rt).
  { apply (well_formed_stable (CallSendCommand (SetFreq 0 7074000) "setFreqResult" 5000)).
    intros c _. done. }
  split; [exact Hwf|]. split; [reflexivity|].
  exact (settled_outcome_is_final rt 0 _ _ Hwf eq_refl).
Defined.

End MoreChannelFacts.

(* ================================================================== *)
(** * connect: retries, failure, success *)
(* ================================================================== *)

Section ConnectFacts.
Import Types WsClient ChannelSpec WsConnect.

Lemma disconnect_ws (rt : Runtime) :
  ws (client (disconnect rt)) = None /\ messageListeners (client (disconnect rt)) = [].
Proof.
  destruct rt as [[[sock|] ls] ts st os n]; [|done].
  destruct sock as [u [] oo oc oe om]; done.
Qed.

Lemma deliver_settled url t a evs r :
  at_promise a = Some r -> deliver url t a evs = a.
Proof. intros H. destruct evs; cbn; by rewrite H. Qed.

(** A failing attempt rejects with the error of its first event and leaves
    the client without a socket. *)
Lemma attempt_fails url t s rt :
  fails s = true -> ws (client rt) = None ->
  exists e, rejection t s = Some e /\
    at_promise (attemptConnect url t s rt) = Some (inl e) /\
    at_rt (attemptConnect url t s rt) = rt /\
    filter (fun op => is_delay op = true) (at_ops (attemptConnect url t s rt)) = [] /\
    length (filter (fun op => is_new_socket op = true)
              (at_ops (attemptConnect url t s rt))) <= 1.
Proof.
  intros Hf Hw. destruct s as [e|[|ev evs]]; try discriminate.
  - exists e. cbn. repeat split; first [reflexivity | lia].
  - destruct ev; try discriminate; cbn [attemptConnect deliver at_promise].
    + eexists. split; [reflexivity|].
      rewrite (deliver_settled _ _ _ _ (inl (ErrorObj ("WebSocket error: " +:+ event_json))))
        by reflexivity.
      cbn. repeat split; first [reflexivity | lia].
    + eexists. split; [reflexivity|].
      cbn [attempt_event at_opened at_clear_timer at_rt]. rewrite Hw.
      rewrite (deliver_settled _ _ _ _
                 (inl (ErrorObj ("WebSocket closed before open: code=" +:+ JS.String_of_Z code))))
        by reflexivity.
      cbn. repeat split; first [reflexivity | lia].
    + eexists. split; [reflexivity|].
      rewrite (deliver_settled _ _ _ _
                 (inl (ErrorObj ("Connection timeout (" +:+ JS.String_of_Z t +:+ "ms)"))))
        by reflexivity.
      cbn. repeat split; first [reflexivity | lia].
Qed.

Lemma attempt_opens url t s rt :
  opens s = true ->
  attemptConnect url t s rt =
    {| at_rt := on_open url rt; at_timer := false; at_promise := Some (inr tt);
       at_opened := true; at_ops := [NewSocket url] |}.
Proof.
  destruct s as [e|[|[] evs]]; try discriminate. intros _.
  cbn [attemptConnect deliver at_promise].
  by rewrite (deliver_settled _ _ _ _ (inr tt)) by reflexivity.
Qed.

Lemma filter_delay_app (l k : list ConnectOp) :
  filter (fun op => is_delay op = true) (l ++ k)%list =
  (filter (fun op => is_delay op = true) l ++ filter (fun op => is_delay op = true) k)%list.
Proof. apply filter_app. Qed.

Lemma filter_socket_app (l k : list ConnectOp) :
  filter (fun op => is_new_socket op = true) (l ++ k)%list =
  (filter (fun op => is_new_socket op = true) l ++
   filter (fun op => is_new_socket op = true) k)%list.
Proof. apply filter_app. Qed.

Lemma filter_delay_warn (m : string) :
  filter (fun op => is_delay op = true) [Warn m] = [].
Proof. reflexivity. Qed.

Lemma filter_delay_delay (d : Z) :
  filter (fun op => is_delay op = true) [Delay d] = [Delay d].
Proof. reflexivity. Qed.

Lemma filter_socket_warn (m : string) :
  filter (fun op => is_new_socket op = true) [Warn m] = [].
Proof. reflexivity. Qed.

Lemma filter_socket_delay (d : Z) :
  filter (fun op => is_new_socket op = true) [Delay d] = [].
Proof. reflexivity. Qed.

(** The loop over attempts that all fail. *)
Lemma attempts_all_fail url t N d (n : nat) :
  forall fuel attempt lastError scripts rt done,
    Z.of_nat n = (N - attempt + 1)%Z ->
    n <= fuel -> n <= length scripts ->
    Forall (fun s => fails s = true) (take n scripts) ->
    ws (client rt) = None ->
    let c := attempts fuel url t N d attempt lastError scripts rt done in
    co_rt c = rt /\
    co_result c =
      Failed (ErrorObj (failure_text N
        (match last (take n scripts) with
         | Some s => message_of <$> rejection t s
         | None => lastError
         end))) /\
    filter (fun op => is_delay op = true) (co_ops c) =
      (filter (fun op => is_delay op = true) done ++ replicate (n - 1) (Delay d))%list /\
    length (filter (fun op => is_new_socket op = true) (co_ops c)) <=
      length (filter (fun op => is_new_socket op = true) done) + n.
Proof.
  induction n as [|n IH]; intros fuel attempt lastError scripts rt done Hn Hfuel Hlen Hall Hw.
  - assert (Hgt : (attempt <=? N)%Z = false) by lia.
    destruct fuel; cbn; rewrite Hgt; cbn; rewrite ?app_nil_r; repeat split; lia.
  - destruct fuel as [|fuel]; [lia|].
    destruct scripts as [|s scripts]; [cbn in Hlen; lia|].
    cbn [take] in Hall. apply Forall_cons in Hall as [Hs Hall].
    assert (Hle : (attempt <=? N)%Z = true) by lia.
    cbn [attempts hd tail]. rewrite Hle.
    destruct (attempt_fails url t s rt Hs Hw) as (e & Hrej & Hp & Hrt & Hdel & Hsock).
    rewrite Hp, Hrt.
    match goal with
    | |- context [attempts fuel url t N d (attempt + 1) ?le scripts rt ?dn] =>
        specialize (IH fuel (attempt + 1)%Z le scripts rt dn ltac:(lia) ltac:(lia)
                      ltac:(cbn in Hlen; lia) Hall Hw);
        destruct IH as (IH1 & IH2 & IH3 & IH4)
    end.
    cbv zeta. split; [exact IH1|]. split; [|split].
    + rewrite IH2. do 3 f_equal.
      cbn [take]. destruct (take n scripts) as [|x l] eqn:Ht.
      * cbn. by rewrite Hrej.
      * rewrite last_cons_cons. destruct (last (x :: l)) eqn:E; [done|].
        by apply last_None in E.
    + rewrite IH3. clear IH2 IH3 IH4.
      destruct n as [|n].
      * assert (Hlt : (attempt <? N)%Z = false) by lia. rewrite Hlt.
        rewrite !filter_delay_app, Hdel, filter_delay_warn. by rewrite !app_nil_r.
      * assert (Hlt : (attempt <? N)%Z = true) by lia. rewrite Hlt.
        rewrite !filter_delay_app, Hdel, filter_delay_warn, filter_delay_delay.
        cbn [replicate Nat.sub]. replace (n - 0) with n by lia.
        by rewrite !app_nil_r, <- app_assoc.
    + etrans; [exact IH4|]. clear IH2 IH3 IH4.
      destruct (attempt <? N)%Z;
        rewrite !filter_socket_app, ?filter_socket_warn, ?filter_socket_delay, !length_app;
        cbn [length]; lia.
Qed.

(** X20: when every attempt fails, connect rejects after exactly maxRetries
    attempts with the message of the last failure, has waited retryDelayMs
    between the attempts but not after the last one, and leaves the client
    disconnected. *)
Theorem connect_exhausts_retries (url : string) (timeoutMs maxRetries retryDelayMs : Z)
    (scripts : list AttemptScript) (rt : Runtime) :
  (1 <= maxRetries)%Z ->
  Z.to_nat maxRetries <= length scripts ->
  Forall (fun s => fails s = true) (take (Z.to_nat maxRetries) scripts) ->
  let c := connect url timeoutMs maxRetries retryDelayMs scripts rt in
  (exists (s : AttemptScript) (e : Thrown),
     scripts !! (Z.to_nat maxRetries - 1) = Some s /\
     rejection timeoutMs s = Some e /\
     co_result c =
       Failed (ErrorObj ("WebSocket connection failed after "
                         +:+ JS.String_of_Z maxRetries +:+ " attempts: "
                         +:+ message_of e))) /\
  delays_waited c = replicate (Z.to_nat maxRetries - 1) (Delay retryDelayMs) /\
  sockets_opened c <= Z.to_nat maxRetries /\
  co_rt c = disconnect rt /\
  isConnected (client (co_rt c)) = false.
Proof.
  intros HN Hlen Hall c.
  assert (Hw : ws (client (disconnect rt)) = None) by apply disconnect_ws.
  destruct (attempts_all_fail url timeoutMs maxRetries retryDelayMs (Z.to_nat maxRetries)
              (Z.to_nat maxRetries) 1 None scripts (disconnect rt) []
              ltac:(lia) ltac:(lia) Hlen Hall Hw) as (H1 & H2 & H3 & H4).
  fold (connect url timeoutMs maxRetries retryDelayMs scripts rt) in H1, H2, H3, H4.
  fold c in H1, H2, H3, H4.
  split; [|split; [|split; [|split]]].
  - assert (Hlast : last (take (Z.to_nat maxRetries) scripts)
                    = scripts !! (Z.to_nat maxRetries - 1)).
    { rewrite last_lookup, length_take, Nat.min_l by lia.
      rewrite lookup_take_lt by lia. f_equal. lia. }
    rewrite Hlast in H2.
    destruct (scripts !! (Z.to_nat maxRetries - 1)) as [s|] eqn:Hs.
    + assert (Hf : fails s = true).
      { rewrite Forall_lookup in Hall. apply (Hall (Z.to_nat maxRetries - 1)).
        rewrite lookup_take_lt by lia. exact Hs. }
      destruct (attempt_fails url timeoutMs s (disconnect rt) Hf Hw) as (e & He & _).
      exists s, e. split; [reflexivity|]. split; [exact He|].
      rewrite H2, He. reflexivity.
    + apply lookup_ge_None in Hs. lia.
  - exact H3.
  - unfold sockets_opened. etrans; [exact H4|]. cbn. lia.
  - exact H1.
  - rewrite H1. unfold isConnected. by rewrite Hw.
Qed.

Lemma connect_exhausts_retries_witness :
  exists e : Thrown,
    co_result (connect "ws://127.0.0.1:17800/ws" 5000 3 1000
                 [Events [EvError "{}"]; Events [EvClose 1006]; Events [EvTimeout]]
                 demo_channel)
    = Failed e /\
    message_of e =
      "WebSocket connection failed after 3 attempts: Connection timeout (5000ms)".
Proof.
  destruct (connect_exhausts_retries "ws://127.0.0.1:17800/ws" 5000 3 1000
              [Events [EvError "{}"]; Events [EvClose 1006]; Events [EvTimeout]]
              demo_channel ltac:(lia) ltac:(cbn; lia) ltac:(repeat constructor))
    as ((s & e & Hs & He & Hr) & _).
  eexists. split; [exact Hr|].
  cbn in Hs. injection Hs as <-. cbn in He. injection He as <-. reflexivity.
Defined.

(** X21: with maxRetries of zero or less connect makes no attempt at all: it
    only disconnects, and rejects with a message whose cause reads
    "undefined". *)
Theorem connect_without_attempts (url : string) (timeoutMs maxRetries retryDelayMs : Z)
    (scripts : list AttemptScript) (rt : Runtime) :
  (maxRetries <= 0)%Z ->
  let c := connect url timeoutMs maxRetries retryDelayMs scripts rt in
  co_result c =
    Failed (ErrorObj ("WebSocket connection failed after "
                      +:+ JS.String_of_Z maxRetries +:+ " attempts: undefined")) /\
  co_ops c = [] /\
  co_rt c = disconnect rt.
Proof.
  intros HN c. unfold c, connect.
  assert (Hgt : (1 <=? maxRetries)%Z = false) by lia.
  destruct (Z.to_nat maxRetries); cbn [attempts]; rewrite Hgt; done.
Qed.

Lemma connect_without_attempts_witness :
  co_result (connect "ws://127.0.0.1:17800/ws" 5000 0 1000 [Events [EvOpen]] demo_channel)
  = Failed (ErrorObj "WebSocket connection failed after 0 attempts: undefined").
Proof.
  exact (proj1 (connect_without_attempts "ws://127.0.0.1:17800/ws" 5000 0 1000
                  [Events [EvOpen]] demo_channel ltac:(lia))).
Defined.

(** The loop over attempts that fail until one opens. *)
Lemma attempts_until_open url t N d (failing : list AttemptScript) :
  forall fuel attempt lastError s rest rt done,
    (attempt + Z.of_nat (length failing) <= N)%Z ->
    length failing < fuel ->
    Forall (fun s => fails s = true) failing ->
    opens s = true ->
    ws (client rt) = None ->
    let c := attempts fuel url t N d attempt lastError (failing ++ s :: rest)%list rt done in
    co_rt c = on_open url rt /\
    co_result c = Connected /\
    filter (fun op => is_delay op = true) (co_ops c) =
      (filter (fun op => is_delay op = true) done
       ++ replicate (length failing) (Delay d))%list /\
    length (filter (fun op => is_new_socket op = true) (co_ops c)) <=
      length (filter (fun op => is_new_socket op = true) done) + length failing + 1.
Proof.
  induction failing as [|f failing IH];
    intros fuel attempt lastError s rest rt done HN Hfuel Hall Hs Hw.
  - destruct fuel as [|fuel]; [cbn in Hfuel; lia|].
    assert (Hle : (attempt <=? N)%Z = true) by (cbn in HN; lia).
    cbn [app attempts hd tail]. rewrite Hle, (attempt_opens url t s rt Hs).
    cbn [at_promise at_rt at_ops co_rt co_result co_ops length replicate].
    split; [done|]. split; [done|]. split.
    + rewrite !filter_delay_app.
      change (filter (fun op => is_delay op = true) [NewSocket url]) with (@nil ConnectOp).
      change (filter (fun op => is_delay op = true) [Log "[WsClient] Connected"])
        with (@nil ConnectOp).
      by rewrite !app_nil_r.
    + rewrite !filter_socket_app, !length_app.
      change (filter (fun op => is_new_socket op = true) [NewSocket url])
        with [NewSocket url].
      change (filter (fun op => is_new_socket op = true) [Log "[WsClient] Connected"])
        with (@nil ConnectOp).
      cbn [length]. lia.
  - destruct fuel as [|fuel]; [cbn in Hfuel; lia|].
    apply Forall_cons in Hall as [Hf Hall].
    assert (Hle : (attempt <=? N)%Z = true) by (cbn in HN; lia).
    assert (Hlt : (attempt <? N)%Z = true) by (cbn in HN; lia).
    cbn [app attempts hd tail]. rewrite Hle.
    destruct (attempt_fails url t f rt Hf Hw) as (e & Hrej & Hp & Hrt & Hdel & Hsock).
    rewrite Hp, Hrt, Hlt.
    match goal with
    | |- context [attempts fuel url t N d (attempt + 1) ?le _ rt ?dn] =>
        specialize (IH fuel (attempt + 1)%Z le s rest rt dn
                      ltac:(cbn in HN; lia) ltac:(cbn in Hfuel; lia) Hall Hs Hw);
        destruct IH as (IH1 & IH2 & IH3 & IH4)
    end.
    cbv zeta. split; [exact IH1|]. split; [exact IH2|]. split.
    + rewrite IH3. rewrite !filter_delay_app, Hdel, filter_delay_warn, filter_delay_delay.
      cbn [length replicate]. by rewrite !app_nil_r, <- app_assoc.
    + etrans; [exact IH4|].
      rewrite !filter_socket_app, filter_socket_warn, filter_socket_delay, !length_app.
      cbn [length]. lia.
Qed.

(** X22: connect resolves at the first attempt whose socket opens: the
    attempts before it have failed and each was followed by one delay, the
    client is connected to the address with its message handler installed
    and no listener, and neither the rest of that attempt's events nor any
    later script is looked at. *)
Theorem connect_succeeds_at_first_open (url : string)
    (timeoutMs maxRetries retryDelayMs : Z)
    (failing : list AttemptScript) (more : list AttemptEvent)
    (rest : list AttemptScript) (rt : Runtime) :
  (Z.of_nat (length failing) < maxRetries)%Z ->
  Forall (fun s => fails s = true) failing ->
  let c := connect url timeoutMs maxRetries retryDelayMs
             (failing ++ Events (EvOpen :: more) :: rest)%list rt in
  co_result c = Connected /\
  co_rt c = on_open url (disconnect rt) /\
  isConnected (client (co_rt c)) = true /\
  listening (co_rt c) /\
  messageListeners (client (co_rt c)) = [] /\
  delays_waited c = replicate (length failing) (Delay retryDelayMs) /\
  sockets_opened c <= length failing + 1 /\
  c = connect url timeoutMs maxRetries retryDelayMs
        (failing ++ [Events [EvOpen]])%list rt.
Proof.
  intros HN Hall c.
  destruct (disconnect_ws rt) as [Hw Hl].
  destruct (attempts_until_open url timeoutMs maxRetries retryDelayMs failing
              (Z.to_nat maxRetries) 1 None (Events (EvOpen :: more)) rest (disconnect rt) []
              ltac:(lia) ltac:(lia) Hall eq_refl Hw) as (H1 & H2 & H3 & H4).
  fold (connect url timeoutMs maxRetries retryDelayMs
          (failing ++ Events (EvOpen :: more) :: rest)%list rt) in H1, H2, H3, H4.
  fold c in H1, H2, H3, H4.
  split; [exact H2|]. split; [exact H1|]. rewrite H1.
  split; [done|]. split; [by eexists|]. split; [exact Hl|].
  split; [exact H3|]. split; [unfold sockets_opened; etrans; [exact H4|]; cbn; lia|].
  unfold c, connect. generalize (Z.to_nat maxRetries) (1%Z) (@None string)
    (disconnect rt) (@nil ConnectOp).
  clear. induction failing as [|f failing IH]; intros fuel attempt lastError rt0 done.
  - destruct fuel as [|fuel]; cbn [app attempts hd tail]; [done|].
    destruct (attempt <=? maxRetries)%Z; [|done].
    rewrite (attempt_opens url timeoutMs (Events (EvOpen :: more)) rt0 eq_refl).
    rewrite (attempt_opens url timeoutMs (Events [EvOpen]) rt0 eq_refl). done.
  - destruct fuel as [|fuel]; cbn [app attempts hd tail]; [done|].
    destruct (attempt <=? maxRetries)%Z; [|done].
    destruct (at_promise (attemptConnect url timeoutMs f rt0)) as [[e|]|]; [|done|done].
    apply IH.
Qed.

Lemma connect_succeeds_at_first_open_witness :
  co_result (connect "ws://127.0.0.1:17800/ws" 5000 3 1000
               [Events [EvTimeout; EvClose 1006]; Events [EvOpen; EvClose 1000];
                Events [EvError "{}"]] fresh) = Connected /\
  delays_waited (connect "ws://127.0.0.1:17800/ws" 5000 3 1000
               [Events [EvTimeout; EvClose 1006]; Events [EvOpen; EvClose 1000];
                Events [EvError "{}"]] fresh) = [Delay 1000].
Proof.
  pose proof (connect_succeeds_at_first_open "ws://127.0.0.1:17800/ws" 5000 3 1000
                [Events [EvTimeout; EvClose 1006]] [EvClose 1000] [Events [EvError "{}"]]
                fresh ltac:(cbn; lia) ltac:(repeat constructor)) as H.
  cbv zeta in H. destruct H as (H1 & _ & _ & _ & _ & H2 & _).
  split; [exact H1 | exact H2].
Defined.

(** ** What connect does to commands in flight *)

Lemma attempt_event_keeps url t a ev :
  let a' := attempt_event url t a ev in
  messageListeners (client (at_rt a')) = messageListeners (client (at_rt a)) /\
  timers (at_rt a') = timers (at_rt a) /\
  settled (at_rt a') = settled (at_rt a) /\
  ops (at_rt a') = ops (at_rt a) /\
  next (at_rt a') = next (at_rt a).
Proof.
  destruct a as [rt tm p o os]. destruct ev as [|j|code|]; cbn.
  - destruct p; done.
  - destruct o; [done|]. destruct p; done.
  - destruct o.
    + cbn. unfold on_close. destruct (ws (client rt)) as [sock|]; [|done].
      destruct (onclose sock); done.
    + cbn. destruct (ws (client rt)); [done|]. destruct p; done.
  - destruct tm; [|done]. destruct p; done.
Qed.

Lemma deliver_keeps url t evs :
  forall a,
    let a' := deliver url t a evs in
    messageListeners (client (at_rt a')) = messageListeners (client (at_rt a)) /\
    timers (at_rt a') = timers (at_rt a) /\
    settled (at_rt a') = settled (at_rt a) /\
    ops (at_rt a') = ops (at_rt a) /\
    next (at_rt a') = next (at_rt a).
Proof.
  induction evs as [|ev evs IH]; intros a; cbn.
  - destruct (at_promise a); done.
  - destruct (at_promise a); [done|].
    destruct (IH (attempt_event url t a ev)) as (H1 & H2 & H3 & H4 & H5).
    destruct (attempt_event_keeps url t a ev) as (K1 & K2 & K3 & K4 & K5).
    cbv zeta in *. rewrite H1, H2, H3, H4, H5. done.
Qed.

Lemma attemptConnect_keeps url t s rt :
  let a := attemptConnect url t s rt in
  messageListeners (client (at_rt a)) = messageListeners (client rt) /\
  timers (at_rt a) = timers rt /\
  settled (at_rt a) = settled rt /\
  ops (at_rt a) = ops rt /\
  next (at_rt a) = next rt.
Proof.
  destruct s as [e|evs]; [done|].
  apply (deliver_keeps url t evs
           {| at_rt := rt; at_timer := true; at_promise := None;
              at_opened := false; at_ops := [NewSocket url] |}).
Qed.

Lemma attempts_keep url t N d fuel :
  forall attempt lastError scripts rt done,
    let c := attempts fuel url t N d attempt lastError scripts rt done in
    messageListeners (client (co_rt c)) = messageListeners (client rt) /\
    timers (co_rt c) = timers rt /\
    settled (co_rt c) = settled rt /\
    ops (co_rt c) = ops rt /\
    next (co_rt c) = next rt.
Proof.
  induction fuel as [|fuel IH]; intros attempt lastError scripts rt done; cbn.
  - destruct (attempt <=? N)%Z; done.
  - destruct (attempt <=? N)%Z; [|done].
    pose proof (attemptConnect_keeps url t (hd (Events []) scripts) rt) as K.
    cbv zeta in K. destruct K as (K1 & K2 & K3 & K4 & K5).
    destruct (at_promise (attemptConnect url t (hd (Events []) scripts) rt))
      as [[e|[]]|]; cbn; try done.
    match goal with
    | |- context [attempts fuel url t N d ?a ?le ?sc ?r ?dn] =>
        destruct (IH a le sc r dn) as (H1 & H2 & H3 & H4 & H5)
    end.
    cbv zeta in *. rewrite H1, H2, H3, H4, H5. done.
Qed.

(** X23: whatever the attempts do and however connect ends (connected,
    failed, or still waiting), it has dropped every registered message
    listener and has neither settled nor cancelled a command in flight: the
    timeouts stay armed, so such a command can now only time out. *)
Theorem connect_orphans_commands_in_flight (url : string)
    (timeoutMs maxRetries retryDelayMs : Z)
    (scripts : list AttemptScript) (rt : Runtime) (call : nat) :
  let c := connect url timeoutMs maxRetries retryDelayMs scripts rt in
  messageListeners (client (co_rt c)) = [] /\
  mine call (co_rt c) = [] /\
  armed call (co_rt c) = armed call rt /\
  outcome_of call (co_rt c) = outcome_of call rt /\
  next (co_rt c) = next rt.
Proof.
  intros c. unfold c, connect.
  destruct (attempts_keep url timeoutMs maxRetries retryDelayMs (Z.to_nat maxRetries)
              1 None scripts (disconnect rt) []) as (H1 & H2 & H3 & H4 & H5).
  destruct (disconnect_ws rt) as [_ Hl].
  pose proof (view_disconnect call rt) as Hv. unfold view in Hv.
  apply pair_equal_spec in Hv as [Hv Ha]. apply pair_equal_spec in Hv as [Ho Hm].
  cbv zeta in *. unfold mine, armed, outcome_of in *.
  rewrite H1, H2, H3, H5, Hl. split; [done|]. split; [done|].
  split; [exact Ha|]. split; [exact Ho|].
  destruct rt as [[[sock|] ls] ts st os n]; [|done].
  destruct sock as [u [] oo oc oe om]; done.
Qed.

Lemma attempts_settle url t N d (n : nat) :
  forall fuel attempt lastError scripts rt done,
    Z.of_nat n = Z.max 0 (N - attempt + 1) ->
    n <= fuel -> n <= length scripts ->
    Forall (fun s => eventful s = true) scripts ->
    ws (client rt) = None ->
    co_result (attempts fuel url t N d attempt lastError scripts rt done) <> Hangs.
Proof.
  induction n as [|n IH]; intros fuel attempt lastError scripts rt done Hn Hfuel Hlen Hall Hw.
  - assert (Hgt : (attempt <=? N)%Z = false) by lia.
    destruct fuel; cbn; rewrite Hgt; done.
  - destruct fuel as [|fuel]; [lia|].
    destruct scripts as [|s scripts]; [cbn in Hlen; lia|].
    apply Forall_cons in Hall as [Hs Hall].
    assert (Hle : (attempt <=? N)%Z = true) by lia.
    cbn [attempts hd tail]. rewrite Hle.
    destruct (fails s) eqn:Hf.
    + destruct (attempt_fails url t s rt Hf Hw) as (e & _ & Hp & Hrt & _).
      rewrite Hp, Hrt. cbv zeta.
      apply (IH fuel); [lia|lia|cbn in Hlen; lia|exact Hall|exact Hw].
    + assert (Ho : opens s = true).
      { destruct s as [e|[|[] evs]]; done. }
      by rewrite (attempt_opens url t s rt Ho).
Qed.

(** X24: connect hangs only on an attempt during which nothing happens: when
    the host delivers at least one event to every attempt (the timeout of
    the attempt is one), connect settles, connected or failed. *)
Theorem connect_settles (url : string) (timeoutMs maxRetries retryDelayMs : Z)
    (scripts : list AttemptScript) (rt : Runtime) :
  Z.to_nat maxRetries <= length scripts ->
  Forall (fun s => eventful s = true) scripts ->
  co_result (connect url timeoutMs maxRetries retryDelayMs scripts rt) <> Hangs.
Proof.
  intros Hlen Hall. unfold connect.
  destruct (disconnect_ws rt) as [Hw _].
  apply (attempts_settle url timeoutMs maxRetries retryDelayMs (Z.to_nat maxRetries));
    [lia|lia|exact Hlen|exact Hall|exact Hw].
Qed.

Lemma connect_settles_witness :
  co_result (connect "ws://127.0.0.1:17800/ws" 5000 2 1000
               [Events [EvTimeout]; ConstructorThrows (ErrorObj "SyntaxError")]
               demo_channel) <> Hangs.
Proof.
  apply (connect_settles "ws://127.0.0.1:17800/ws" 5000 2 1000
           [Events [EvTimeout]; ConstructorThrows (ErrorObj "SyntaxError")]
           demo_channel); [cbn; lia | repeat constructor].
Defined.



End ConnectFacts.

(* ================================================================== *)
(** * The recording engine: further paths of the handlers *)
(* ================================================================== *)

Section MoreEngineFacts.
Import Types Async Storage Engine Spec EngineSpec.

Lemma reset_then {E : Type} (w : World E) (e : E) (v : Vars) (rest : Prog unit) :
  currentState v = error ->
  exec w (v0 ← read;
          (if decide (currentState v0 = error) then resetState else mret tt);; rest) e v =
  performed (OpOut (Console ConsoleLog "[SW] Resetting error state to idle"))
    (exec w (v0 ← read;
             (if decide (currentState v0 = error) then resetState else mret tt);; rest)
       e (assign_state idle None v)).
Proof.
  intros Herr. unfold resetState. cbn.
  destruct (decide (currentState v = error)) as [_|Hx]; [|done]. cbn.
  destruct (decide (currentState v = error)) as [_|Hx]; [|done]. cbn.
  destruct (decide (idle = error)) as [Hx|_]; [discriminate Hx|].
  reflexivity.
Qed.

(** X26: a flow requested in the error state first clears the error (state
    idle, no message, counters cleared) and from there runs exactly as a
    flow requested while idle; the reset shows as one console line. *)
Theorem executeRecordingFlow_resets_error {E : Type} (w : World E) (e : E)
    (v : Vars) (params : RecordingParams) :
  currentState v = error ->
  exec w (executeRecordingFlow params) e v =
  performed (OpOut (Console ConsoleLog "[SW] Resetting error state to idle"))
    (exec w (executeRecordingFlow params) e (assign_state idle None v)) /\
  currentState (assign_state idle None v) = idle /\
  errorMessage (assign_state idle None v) = None /\
  recordingElapsed (assign_state idle None v) = None /\
  recordingTotal (assign_state idle None v) = None.
Proof.
  intros Herr. split; [|done].
  unfold executeRecordingFlow. by apply reset_then.
Qed.

Lemma executeRecordingFlow_resets_error_witness :
  trace (exec accepting_bridge (executeRecordingFlow one_minute_FM) tt error_vars) =
  OpOut (Console ConsoleLog "[SW] Resetting error state to idle")
  :: trace (exec accepting_bridge (executeRecordingFlow one_minute_FM) tt
              (assign_state idle None error_vars)).
Proof.
  rewrite (proj1 (executeRecordingFlow_resets_error accepting_bridge tt error_vars
                    one_minute_FM eq_refl)).
  reflexivity.
Defined.

Ltac sim :=
  cbn -[truthy_opt field failure_message String.append JS.String_of_Z buildWsUrl
        Z.mul Z.add Z.max message_of String_of_thrown JS.includes cap unshift].

Ltac next_reply w :=
  match goal with
  | |- context [respond w ?e ?c] =>
      let r := fresh "r" in let e' := fresh "e" in
      destruct (respond w e c) as [[r|r] e']
  | |- context [answer w ?e ?q] =>
      let r := fresh "r" in let e' := fresh "e" in
      destruct (answer w e q) as [r e']
  end.

Ltac next_branch :=
  match goal with
  | |- context [decide ?P] => destruct (decide P)
  | |- context [if ?b then _ else _] => destruct b eqn:?
  end.

(** X27: whatever the bridge and the browser answer, and whatever state
    the flow is requested in, a flow sends commands only after connecting,
    the tune-mode command only after the tune-frequency command, and
    touches the offscreen recorder (so starts the capture) only after the
    tune-mode command and after closing the command channel. *)
Theorem capture_only_after_tuning {E : Type} (w : World E) (e : E)
    (v : Vars) (params : RecordingParams) :
  let t := trace (exec w (executeRecordingFlow params) e v) in
  preceded_by is_ws_connect is_ws_send t = true /\
  preceded_by is_setFreq_send is_setMode_send t = true /\
  preceded_by is_setMode_send is_offscreen t = true /\
  preceded_by is_ws_disconnect is_offscreen t = true /\
  preceded_by is_ws_disconnect is_start_capture t = true.
Proof.
  cbv zeta.
  set (Q := fun r0 : Run E unit =>
              preceded_by is_ws_connect is_ws_send (trace r0) = true /\
              preceded_by is_setFreq_send is_setMode_send (trace r0) = true /\
              preceded_by is_setMode_send is_offscreen (trace r0) = true /\
              preceded_by is_ws_disconnect is_offscreen (trace r0) = true /\
              preceded_by is_ws_disconnect is_start_capture (trace r0) = true).
  change (Q (exec w (executeRecordingFlow params) e v)).
  unfold executeRecordingFlow, setFrequency, setMode, startCapture, resetState,
    ensureOffscreen, closeOffscreen, sendToOffscreen. sim.
  repeat (first [ next_reply w; sim | next_branch; sim ]);
    unfold Q; cbn; done.
Qed.












End MoreEngineFacts.
